(** * f2: the batch renaming operation (operation.go)

    A shallow embedding of [Operation.apply], [Operation.rename],
    [Operation.handleErrors], [Operation.writeToFile], [Operation.undo],
    [Operation.sortMatches] and [Operation.run], with the operating system
    and the collaborators that live outside operation.go taken as
    parameters, followed by the properties of the executor, the journal
    and the ordering policy. *)

From stdpp Require Import base strings list gmap sorting.
From Stdlib Require Import ZArith Lia Ascii.

Open Scope string_scope.
Open Scope list_scope.

(** ** Strings (Go's [strings] package, as far as operation.go uses it) *)

Module strings.

(** [strings.Contains(s, substr)]: some suffix of [s] starts with
    [substr]. *)
Fixpoint Contains (s sub : string) : bool :=
  if String.prefix sub s then true
  else match s with
       | EmptyString => false
       | String _ s' => Contains s' sub
       end.

(** [strings.IndexByte(s, c)]: the index of the first [c] in [s];
    [None] stands for -1. *)
Fixpoint IndexByte (s : string) (c : ascii) : option nat :=
  match s with
  | EmptyString => None
  | String a s' => if Ascii.eqb a c then Some 0 else S <$> IndexByte s' c
  end.

(** [s[i:]]. *)
Fixpoint from (i : nat) (s : string) : string :=
  match i, s with
  | S i', String _ s' => from i' s'
  | _, _ => s
  end.

(** White space as [strings.TrimSpace] sees it in ASCII text. *)
Definition isSpace (a : ascii) : bool :=
  let n := nat_of_ascii a in
  (n =? 32)%nat || ((9 <=? n)%nat && (n <=? 13)%nat).

Fixpoint TrimLeft (s : string) : string :=
  match s with
  | String a s' => if isSpace a then TrimLeft s' else s
  | EmptyString => s
  end.

Fixpoint TrimRight (s : string) : string :=
  match s with
  | EmptyString => EmptyString
  | String a s' =>
    match TrimRight s' with
    | EmptyString => if isSpace a then EmptyString else String a EmptyString
    | t => String a t
    end
  end.

(** [strings.TrimSpace(s)]. *)
Definition TrimSpace (s : string) : string := TrimRight (TrimLeft s).

(** [strings.TrimPrefix(s, prefix)]. *)
Definition TrimPrefix (s p : string) : string :=
  if String.prefix p s then from (String.length p) s else s.

End strings.

(** ** Time (Go's [time] package: the two layouts operation.go formats) *)

Module time.

(** A wall-clock reading; [offset] is the zone offset in minutes east of
    UTC. *)
Record Time : Type := mkTime {
  year : nat; month : nat; day : nat;
  hour : nat; minute : nat; second : nat;
  offset : Z
}.

(** The layout elements ("std chunks") that occur in the layouts below. *)
Inductive chunk : Type :=
| lit (c : ascii)      (* a byte copied as it is *)
| stdLongYear          (* "2006" *)
| stdZeroMonth         (* "01" *)
| stdZeroDay           (* "02" *)
| stdDay               (* "2" *)
| stdHour              (* "15" *)
| stdZeroMinute        (* "04" *)
| stdZeroSecond        (* "05" *)
| stdPM                (* "PM" *)
| stdISO8601ColonTZ.   (* "Z07:00" *)

(** [nextStdChunk], restricted to the elements above: the layout is
    scanned left to right and the first element that starts at the
    current byte is taken; any other byte is literal.  [fuel] bounds the
    number of chunks, at most one per byte. *)
Fixpoint chunks (fuel : nat) (layout : string) : list chunk :=
  match fuel with
  | O => []
  | S fuel' =>
    match layout with
    | EmptyString => []
    | String c rest =>
      if String.prefix "2006" layout then
        stdLongYear :: chunks fuel' (String.substring 4 (String.length layout - 4) layout)
      else if String.prefix "01" layout then
        stdZeroMonth :: chunks fuel' (String.substring 2 (String.length layout - 2) layout)
      else if String.prefix "02" layout then
        stdZeroDay :: chunks fuel' (String.substring 2 (String.length layout - 2) layout)
      else if String.prefix "04" layout then
        stdZeroMinute :: chunks fuel' (String.substring 2 (String.length layout - 2) layout)
      else if String.prefix "05" layout then
        stdZeroSecond :: chunks fuel' (String.substring 2 (String.length layout - 2) layout)
      else if String.prefix "15" layout then
        stdHour :: chunks fuel' (String.substring 2 (String.length layout - 2) layout)
      else if String.prefix "Z07:00" layout then
        stdISO8601ColonTZ :: chunks fuel' (String.substring 6 (String.length layout - 6) layout)
      else if String.prefix "PM" layout then
        stdPM :: chunks fuel' (String.substring 2 (String.length layout - 2) layout)
      else if String.prefix "2" layout then
        stdDay :: chunks fuel' rest
      else lit c :: chunks fuel' rest
    end
  end.

(** Decimal digits of [n], most significant first. *)
Fixpoint digits (fuel n : nat) (acc : string) : string :=
  match fuel with
  | O => acc
  | S fuel' =>
    let acc' := String (ascii_of_nat (48 + n mod 10)) acc in
    if (n / 10 =? 0)%nat then acc' else digits fuel' (n / 10) acc'
  end.

Definition itoa (n : nat) : string := digits (S n) n "".

Fixpoint zeros (k : nat) : string :=
  match k with O => "" | S k' => String "0" (zeros k') end.

(** [appendInt(b, x, width)]: decimal, zero-padded on the left to at
    least [width] digits. *)
Definition appendInt (x width : nat) : string :=
  let s := itoa x in zeros (width - String.length s) +:+ s.

Definition appendChunk (t : Time) (c : chunk) : string :=
  match c with
  | lit a => String a ""
  | stdLongYear => appendInt (year t) 4
  | stdZeroMonth => appendInt (month t) 2
  | stdZeroDay => appendInt (day t) 2
  | stdDay => appendInt (day t) 0
  | stdHour => appendInt (hour t) 2
  | stdZeroMinute => appendInt (minute t) 2
  | stdZeroSecond => appendInt (second t) 2
  | stdPM => if (12 <=? hour t)%nat then "PM" else "AM"
  | stdISO8601ColonTZ =>
    if (offset t =? 0)%Z then "Z"
    else (if (offset t <? 0)%Z then "-" else "+")
           +:+ appendInt (Z.to_nat (Z.abs (offset t) / 60)) 2
           +:+ ":" +:+ appendInt (Z.to_nat (Z.abs (offset t) mod 60)) 2
  end.

(** [t.Format(layout)]. *)
Definition Format (t : Time) (layout : string) : string :=
  foldr (fun c acc => appendChunk t c +:+ acc) "" (chunks (String.length layout) layout).

Definition RFC3339 : string := "2006-01-02T15:04:05Z07:00".

End time.

(** ** Sorting (Go's [sort.SliceStable]) *)

Module sort.

Section InsertionSort.
Context {A : Type} (less : A -> A -> bool).

(** The inner loop of [insertionSort]: the element [x] at index [j]
    is swapped with its left neighbour while [less(j, j-1)].  The
    sorted part to the left of [x] is held reversed, nearest
    neighbour first. *)
Fixpoint insert (x : A) (left : list A) : list A :=
  match left with
  | [] => [x]
  | y :: left' => if less x y then y :: insert x left' else x :: left
  end.

(** [insertionSort(data, 0, n)]: the elements are inserted one by
    one, from index 1 upwards. *)
Definition insertionSort (l : list A) : list A :=
  rev (fold_left (fun left x => insert x left) l []).

(** [sort.SliceStable(x, less)].  The library sorts blocks of 20
    elements by insertion and then merges the blocks; a slice of at
    most 20 elements is one block, so that the result is that of
    [insertionSort].  For a [less] that is a strict weak order the
    stable arrangement is unique, and the insertion sort returns it
    for slices of every length. *)
Definition SliceStable (l : list A) : list A := insertionSort l.

End InsertionSort.

Section Partial.
Context {A : Type} (less : A -> A -> option bool).

(** The same sort for a comparison that can panic ([None]): the panic
    ends the sort. *)
Fixpoint insertP (x : A) (left : list A) : option (list A) :=
  match left with
  | [] => Some [x]
  | y :: left' =>
    b ← less x y;
    if b : bool then cons y <$> insertP x left' else Some (x :: left)
  end.

Definition SliceStableP (l : list A) : option (list A) :=
  @rev A <$> foldl (fun left x => left ← left; insertP x left) (Some []) l.

End Partial.

End sort.

(** ** Data model *)

(** [Change] represents a single filename change. *)
Record Change : Type := mkChange {
  BaseDir : string;
  Source : string;
  Target : string;
  IsDir : bool
}.

#[global] Instance Change_eq_dec : EqDecision Change.
Proof. solve_decision. Defined.

(** The errors of the [os] package: [*fs.PathError] (one path) and
    [*os.LinkError] (two paths). *)
Inductive oserror : Type :=
| PathError (Op Path Err : string)
| LinkError (Op Old New Err : string).

#[global] Instance oserror_eq_dec : EqDecision oserror.
Proof. solve_decision. Defined.

(** [e.Error()]. *)
Definition Error (e : oserror) : string :=
  match e with
  | PathError op path err => op +:+ " " +:+ path +:+ ": " +:+ err
  | LinkError op old new err => op +:+ " " +:+ old +:+ " " +:+ new +:+ ": " +:+ err
  end.

(** The values of Go's [error] that the operation returns. *)
Inductive error : Type :=
| errConflictDetected
    (* "Conflict detected! Please resolve before proceeding or append
       the -F flag to fix conflicts automatically" *)
| errOS (e : oserror)
| errJSON (msg : string)
| errRecovery (file : string)
    (* "Some files could not be renamed. The successful operations have
       been written to <file>. To revert the changes, pass this file to
       the --undo flag" *)
| errNotRenamed
    (* "The above files could not be renamed" *)
| errFailed.
    (* "The renaming operation failed due to the above errors" *)

#[global] Instance error_eq_dec : EqDecision error.
Proof. solve_decision. Defined.

(** [renameError] represents an error that occurs when renaming a file. *)
Record renameError : Type := mkRenameError {
  entry : Change;
  err : oserror
}.

#[global] Instance renameError_eq_dec : EqDecision renameError.
Proof. solve_decision. Defined.

Record mapFile : Type := mkMapFile {
  Date : string;
  Operations : list Change
}.

(** Modelled from the spec: the conflict kinds and the conflict record
    are declared outside operation.go; the kinds are those the spec
    lists for the conflict validator. *)
Inductive conflict : Type :=
| duplicateTarget
| targetExists
| emptyResult
| trailingPeriod.

#[global] Instance conflict_eq_dec : EqDecision conflict.
Proof. solve_decision. Defined.

Definition conflict_code (c : conflict) : nat :=
  match c with
  | duplicateTarget => 0 | targetExists => 1 | emptyResult => 2 | trailingPeriod => 3
  end.

Definition conflict_of_code (n : nat) : conflict :=
  match n with
  | 0 => duplicateTarget | 1 => targetExists | 2 => emptyResult | _ => trailingPeriod
  end.

Lemma conflict_of_code_code c : conflict_of_code (conflict_code c) = c.
Proof. by destruct c. Qed.

#[global] Instance conflict_countable : Countable conflict :=
  inj_countable' conflict_code conflict_of_code conflict_of_code_code.

(** Modelled from the spec: a conflict record names the candidates
    implicated (their source paths) and the target they contend for. *)
Record Conflict : Type := mkConflict {
  source : list string;
  target : string
}.

(** [Operation] represents a batch renaming operation. *)
Record Operation : Type := mkOperation {
  paths : list Change;
  matches : list Change;
  conflicts : gmap conflict (list Conflict);
  findString : string;
  replacement : string;
  startNumber : Z;
  exec : bool;
  fixConflicts : bool;
  includeHidden : bool;
  includeDir : bool;
  onlyDir : bool;
  ignoreCase : bool;
  ignoreExt : bool;
  searchRegex : option string;
  directories : list string;
  recursive : bool;
  undoFile : string;
  outputFile : string;
  workingDir : string;
  stringMode : bool;
  excludeFilter : list string;
  maxDepth : Z;
  sort : string;
  reverseSort : bool;
  quiet : bool;
  errors : list renameError
}.

(** Assignments to the fields the operation writes. *)
Definition set_matches (ms : list Change) (op : Operation) : Operation :=
  mkOperation (paths op) ms (conflicts op) (findString op) (replacement op)
    (startNumber op) (exec op) (fixConflicts op) (includeHidden op) (includeDir op)
    (onlyDir op) (ignoreCase op) (ignoreExt op) (searchRegex op) (directories op)
    (recursive op) (undoFile op) (outputFile op) (workingDir op) (stringMode op)
    (excludeFilter op) (maxDepth op) (sort op) (reverseSort op) (quiet op) (errors op).

Definition set_conflicts (cs : gmap conflict (list Conflict)) (op : Operation) : Operation :=
  mkOperation (paths op) (matches op) cs (findString op) (replacement op)
    (startNumber op) (exec op) (fixConflicts op) (includeHidden op) (includeDir op)
    (onlyDir op) (ignoreCase op) (ignoreExt op) (searchRegex op) (directories op)
    (recursive op) (undoFile op) (outputFile op) (workingDir op) (stringMode op)
    (excludeFilter op) (maxDepth op) (sort op) (reverseSort op) (quiet op) (errors op).

Definition set_errors (es : list renameError) (op : Operation) : Operation :=
  mkOperation (paths op) (matches op) (conflicts op) (findString op) (replacement op)
    (startNumber op) (exec op) (fixConflicts op) (includeHidden op) (includeDir op)
    (onlyDir op) (ignoreCase op) (ignoreExt op) (searchRegex op) (directories op)
    (recursive op) (undoFile op) (outputFile op) (workingDir op) (stringMode op)
    (excludeFilter op) (maxDepth op) (sort op) (reverseSort op) (quiet op) es.

Definition set_quiet (q : bool) (op : Operation) : Operation :=
  mkOperation (paths op) (matches op) (conflicts op) (findString op) (replacement op)
    (startNumber op) (exec op) (fixConflicts op) (includeHidden op) (includeDir op)
    (onlyDir op) (ignoreCase op) (ignoreExt op) (searchRegex op) (directories op)
    (recursive op) (undoFile op) (outputFile op) (workingDir op) (stringMode op)
    (excludeFilter op) (maxDepth op) (sort op) (reverseSort op) q (errors op).

Definition windows : string := "windows".
Definition darwin : string := "darwin".

(** Modelled from the spec: the sort keys other than "size" are constants
    declared outside operation.go; the spec gives their values. *)
Definition modTime : string := "mtime".
Definition accessTime : string := "atime".
Definition birthTime : string := "btime".
Definition changeTime : string := "ctime".

(** ** The operating system and the libraries

    The operation talks to the filesystem, the clock, the JSON codec and
    the path library.  They are taken as an interface: [W] is the state of
    the world outside the program, and every theorem that is stated over
    an arbitrary instance holds for every behaviour of these calls. *)

(** What [times.Stat] reports of a file; instants are in nanoseconds. *)
Record Timespec : Type := mkTimespec {
  ModTime : Z;
  AccessTime : Z;
  ChangeTime : Z;
  BirthTime : Z;
  HasChangeTime : bool;
  HasBirthTime : bool
}.

Class OS (W : Type) : Type := {
  (** the contents of a file *)
  Bytes : Type;
  (** [runtime.GOOS] *)
  GOOS : string;
  (** [filepath.Join(a, b)] and [filepath.Dir(p)] *)
  filepath_Join : string -> string -> string;
  filepath_Dir : string -> string;
  (** [time.Now()] *)
  time_Now : W -> time.Time;
  (** [os.MkdirAll(path, 0750)] *)
  os_MkdirAll : string -> W -> W * option oserror;
  (** [os.Rename(oldpath, newpath)] *)
  os_Rename : string -> string -> W -> W * option oserror;
  (** [os.Create(name)]: creates or truncates the file *)
  os_Create : string -> W -> W * option oserror;
  (** [writer.Write(b)] followed by [writer.Flush()] on the file [name] *)
  file_Write : string -> Bytes -> W -> W * option oserror;
  (** [file.Close()] *)
  file_Close : string -> W -> W * option oserror;
  (** [os.ReadFile(name)] *)
  os_ReadFile : string -> W -> Bytes + oserror;
  (** [os.Stat(name)], then [Size()]; [None] when [os.Stat] fails *)
  os_Stat_Size : string -> W -> option Z;
  (** [times.Stat(name)]; [None] when it fails *)
  times_Stat : string -> W -> option Timespec;
  (** [json.MarshalIndent(mf, "", "    ")] and [json.Unmarshal(b, &mf)] *)
  json_MarshalIndent : mapFile -> Bytes;
  json_Unmarshal : Bytes -> mapFile + string
}.

(** The calls the operation makes, in the order it makes them. *)
Inductive Event : Type :=
| EvPrintln (line : string)
| EvPrintTable (rows : list (list string))
| EvReportConflicts (cs : gmap conflict (list Conflict))
| EvValidate
| EvReadFile (name : string)
| EvMkdirAll (path : string) (r : option oserror)
| EvRename (oldpath newpath : string) (r : option oserror)
| EvCreate (name : string) (r : option oserror)
| EvWrite (name : string) (mf : mapFile) (r : option oserror)
| EvClose (name : string) (r : option oserror).

(** The calls that reach the filesystem, and those that may change it. *)
Definition is_fs_access (e : Event) : bool :=
  match e with
  | EvPrintln _ | EvPrintTable _ | EvReportConflicts _ => false
  | _ => true
  end.

Definition is_fs_mutation (e : Event) : bool :=
  match e with
  | EvMkdirAll _ _ | EvRename _ _ _ | EvCreate _ _ | EvWrite _ _ _ | EvClose _ _ => true
  | _ => false
  end.

(** The state a run threads: the world and the calls made so far. *)
Record State (W : Type) : Type := mkState {
  world : W;
  log : list Event
}.
Arguments mkState {W} _ _.
Arguments world {W} _.
Arguments log {W} _.

Section Calls.
Context {W : Type} `{OS W}.

Definition emit (e : Event) (st : State W) : State W :=
  mkState (world st) (log st ++ [e]).

Definition MkdirAll (path : string) (st : State W) : State W * option oserror :=
  let '(w, r) := os_MkdirAll path (world st) in
  (mkState w (log st ++ [EvMkdirAll path r]), r).

Definition Rename (oldpath newpath : string) (st : State W) : State W * option oserror :=
  let '(w, r) := os_Rename oldpath newpath (world st) in
  (mkState w (log st ++ [EvRename oldpath newpath r]), r).

Definition Create (name : string) (st : State W) : State W * option oserror :=
  let '(w, r) := os_Create name (world st) in
  (mkState w (log st ++ [EvCreate name r]), r).

Definition Write (name : string) (mf : mapFile) (st : State W) : State W * option oserror :=
  let '(w, r) := file_Write name (json_MarshalIndent mf) (world st) in
  (mkState w (log st ++ [EvWrite name mf r]), r).

Definition Close (name : string) (st : State W) : State W * option oserror :=
  let '(w, r) := file_Close name (world st) in
  (mkState w (log st ++ [EvClose name r]), r).

Definition ReadFile (name : string) (st : State W) : State W * (Bytes + oserror) :=
  (emit (EvReadFile name) st, os_ReadFile name (world st)).

End Calls.

(** ** The operation *)

Section Operation.
Context {W : Type} `{OS W}.

(** [op.validate()] is declared outside operation.go.  It inspects the
    batch and the filesystem, stores the conflicts it finds and, with
    auto-fix, rewrites the batch: it is taken as a function of the world
    and the operation that yields the new [conflicts] and [matches]. *)
Variable validate : W -> Operation -> gmap conflict (list Conflict) * list Change.

Definition run_validate (st : State W) (op : Operation) : State W * Operation :=
  let '(cs, ms) := validate (world st) op in
  (emit EvValidate st, set_conflicts cs (set_matches ms op)).

Definition sourcePath (ch : Change) : string := filepath_Join (BaseDir ch) (Source ch).
Definition targetPath (ch : Change) : string := filepath_Join (BaseDir ch) (Target ch).

(** [writeToFile] writes the details of a successful operation to the
    specified output file, creating it if necessary.  The deferred
    [file.Close()] runs on every path after a successful [os.Create],
    and its error, if any, replaces the one being returned. *)
Definition writeToFile (outputFile : string) (st : State W) (op : Operation)
  : State W * option oserror :=
  match Create outputFile st with
  | (st1, Some e) => (st1, Some e)
  | (st1, None) =>
    let mf := mkMapFile (time.Format (time_Now (world st1)) time.RFC3339) (matches op) in
    let '(st2, werr) := Write outputFile mf st1 in
    let '(st3, ferr) := Close outputFile st2 in
    (st3, match ferr with Some e => Some e | None => werr end)
  end.

(** [printChanges] displays the changes to be made in a table format. *)
Definition printChanges (st : State W) (op : Operation) : State W :=
  emit (EvPrintTable (map (fun v => [sourcePath v; targetPath v; "ok"]) (matches op))) st.

(** The directory-creation test of [rename]: [||] binds weaker than
    [&&]. *)
Definition needsDir (ch : Change) : bool :=
  strings.Contains (Target ch) "/"
  || (strings.Contains (Target ch) "\" && bool_decide (GOOS = windows)).

(** One iteration of the loop of [rename]. *)
Definition renameStep (acc : State W * list renameError) (ch : Change)
  : State W * list renameError :=
  let '(st, errs) := acc in
  let source := filepath_Join (BaseDir ch) (Source ch) in
  let target := filepath_Join (BaseDir ch) (Target ch) in
  let '(st1, mkerr) :=
    if needsDir ch
    then MkdirAll (filepath_Join (BaseDir ch) (filepath_Dir (Target ch))) st
    else (st, None) in
  match mkerr with
  | Some e => (st1, errs ++ [mkRenameError ch e])
  | None =>
    match Rename source target st1 with
    | (st2, Some e) => (st2, errs ++ [mkRenameError ch e])
    | (st2, None) => (st2, errs)
    end
  end.

(** [rename] iterates over all the matches and renames them on the
    filesystem; directories are auto-created if necessary.  Errors are
    aggregated instead of being reported one by one. *)
Definition rename (st : State W) (op : Operation) : State W * Operation :=
  let '(st', errs) := fold_left renameStep (matches op) (st, []) in
  (st', set_errors errs op).

(** The status column of an error row of [reportErrors]. *)
Definition errorStatus (e : oserror) : string :=
  let msg := Error e in
  let msg := match strings.IndexByte msg ":" with
             | Some i => strings.TrimSpace (strings.from i msg)
             | None => msg (* no ':': the slice is out of range; see [Error_has_colon] *)
             end in
  strings.TrimPrefix msg ": ".

(** [reportErrors] displays the errors that occur during a renaming
    operation. *)
Definition reportErrors (st : State W) (op : Operation) : State W :=
  emit (EvPrintTable
          (map (fun v => [sourcePath v; targetPath v; "success"]) (matches op)
           ++ map (fun v => [sourcePath (entry v); targetPath (entry v); errorStatus (err v)])
                  (errors op))) st.

(** The inner loop of [handleErrors]: [j] runs from [len(op.matches)-1]
    down to 0 and the element at [j] is cut out when its target is
    [target]. *)
Fixpoint removeTarget (target : string) (n : nat) (ms : list Change) : list Change :=
  match n with
  | O => ms
  | S j =>
    removeTarget target j
      match ms !! j with
      | Some m => if decide (target = Target m) then delete j ms else ms
      | None => ms
      end
  end.

Definition removeErrors (errs : list renameError) (ms : list Change) : list Change :=
  fold_left (fun ms v => removeTarget (Target (entry v)) (length ms) ms) errs ms.

Definition recoveryFile (t : time.Time) : string :=
  ".f2_" +:+ time.Format t "2006-01-2T15-04-05PM" +:+ ".json".

(** [handleErrors] is used to report the errors and write any
    successful operations to a file. *)
Definition handleErrors (st : State W) (op : Operation) : State W * Operation * option error :=
  let op := set_matches (removeErrors (errors op) (matches op)) op in
  let st := reportErrors st op in
  let file := recoveryFile (time_Now (world st)) in
  let '(st, err) :=
    if (0 <? length (matches op))%nat then writeToFile file st op else (st, None) in
  match err with
  | None =>
    if (0 <? length (matches op))%nat then (st, op, Some (errRecovery file))
    else (st, op, Some errFailed)
  | Some _ =>
    if (0 <? length (matches op))%nat then (st, op, Some errNotRenamed)
    else (st, op, Some errFailed)
  end.

(** The comparison of [sortMatches]. *)
Definition sortMatches_less (op : Operation) (mi mj : Change) : bool :=
  if bool_decide (undoFile op ≠ "") then
    (* sort parent directories before child directories in undo mode *)
    (String.length (BaseDir mi) <? String.length (BaseDir mj))%nat
  else if negb (IsDir mi) then
    (* sort files before directories *)
    true
  else
    (* sort child directories before parent directories *)
    (String.length (BaseDir mj) <? String.length (BaseDir mi))%nat.

(** [sortMatches] is used to sort files to avoid renaming conflicts. *)
Definition sortMatches (op : Operation) : Operation :=
  set_matches (sort.SliceStable (sortMatches_less op) (matches op)) op.

(** [apply] will check for conflicts and print the changes to be made
    or apply them directly to the filesystem if in execute mode. *)
Definition apply (st : State W) (op : Operation) : State W * Operation * option error :=
  if decide (length (matches op) = 0%nat) then
    (if quiet op then st else emit (EvPrintln "Failed to match any files") st, op, None)
  else
    let '(st, op) := run_validate st op in
    if (0 <? size (conflicts op))%nat && negb (fixConflicts op) then
      (if quiet op then st else emit (EvReportConflicts (conflicts op)) st,
       op, Some errConflictDetected)
    else if exec op then
      let op := if includeDir op || bool_decide (undoFile op ≠ "")
                then sortMatches op else op in
      let '(st, op) := rename st op in
      if (0 <? length (errors op))%nat then handleErrors st op
      else if bool_decide (outputFile op ≠ "") then
        let '(st, e) := writeToFile (outputFile op) st op in (st, op, errOS <$> e)
      else (st, op, None)
    else if quiet op then (st, op, None)
    else
      let st := printChanges st op in
      (emit (EvPrintln "Append the -x flag to apply the above changes") st, op, None).

(** The comparison of [sortBySize].  Both files are looked up before
    either size is read; a failed [os.Stat] leaves a nil [FileInfo], on
    which [Size()] panics. *)
Definition sortBySize_less (w : W) (op : Operation) (mi mj : Change) : option bool :=
  let ifile := os_Stat_Size (sourcePath mi) w in
  let jfile := os_Stat_Size (sourcePath mj) w in
  isize ← ifile;
  jsize ← jfile;
  Some (if reverseSort op then (isize <? jsize)%Z else (jsize <? isize)%Z).

(** The instants [sortByTime] compares, by sort key. *)
Definition sortTime (key : string) (f : Timespec) : Z :=
  if decide (key = modTime) then ModTime f
  else if decide (key = birthTime) then
    if HasBirthTime f then BirthTime f else ModTime f
  else if decide (key = accessTime) then AccessTime f
  else if decide (key = changeTime) then
    if HasChangeTime f then ChangeTime f else ModTime f
  else 0%Z.

Definition sortByTime_less (w : W) (op : Operation) (mi mj : Change) : option bool :=
  let ifile := times_Stat (sourcePath mi) w in
  let jfile := times_Stat (sourcePath mj) w in
  ifile ← ifile;
  jfile ← jfile;
  let it := sortTime (sort op) ifile in
  let jt := sortTime (sort op) jfile in
  Some (if reverseSort op then (it <? jt)%Z else (jt <? it)%Z).

(** [sortBySize] sorts the matches according to their file size, and
    [sortByTime] by the specified file attribute.  [None] is a panic in a
    comparison; the error the sorts return is that of the last lookup,
    which is nil whenever no comparison panicked, so that a sort that
    returns, returns nil. *)
Definition sortBySize (w : W) (op : Operation) : option Operation :=
  ms ← sort.SliceStableP (sortBySize_less w op) (matches op); Some (set_matches ms op).

Definition sortByTime (w : W) (op : Operation) : option Operation :=
  ms ← sort.SliceStableP (sortByTime_less w op) (matches op); Some (set_matches ms op).

(** [sortBy] delegates the sorting of matches to the appropriate
    method. *)
Definition sortBy (w : W) (op : Operation) : option Operation :=
  if decide (sort op = "size") then sortBySize w op
  else if bool_decide (sort op ∈ [accessTime; modTime; birthTime; changeTime])
       then sortByTime w op
  else Some op.

(** The loop of [undo]: source and target change places. *)
Definition swap (v : Change) : Change :=
  mkChange (BaseDir v) (Target v) (Source v) (IsDir v).

(** [undo] reverses a successful renaming operation indicated in the
    specified map file.  [None] is a panic of the pre-sort. *)
Definition undo (st : State W) (op : Operation)
  : option (State W * Operation * option error) :=
  match ReadFile (undoFile op) st with
  | (st, inr e) => Some (st, op, Some (errOS e))
  | (st, inl file) =>
    match json_Unmarshal file with
    | inr msg => Some (st, op, Some (errJSON msg))
    | inl mf =>
      let op := set_matches (map swap (Operations mf)) op in
      if negb (exec op) && bool_decide (sort op ≠ "") then
        op ← sortBy (world st) op; Some (apply st op)
      else Some (apply st op)
    end
  end.

(** The matcher ([findMatches], [filterMatches]) and the transformer
    [replace] rest on the regular-expression engine and on helpers
    declared outside operation.go; [run] takes them as stages that
    yield the new operation or the error that ends the run. *)
Variable findMatches : W -> Operation -> Operation + error.
Variable filterMatches : Operation -> Operation + error.
Variable replace : W -> Operation -> Operation + error.

(** [run] executes the operation sequence. *)
Definition run (st : State W) (op : Operation)
  : option (State W * Operation * option error) :=
  if bool_decide (undoFile op ≠ "") then undo st op
  else
    match findMatches (world st) op with
    | inr e => Some (st, op, Some e)
    | inl op =>
      match (if decide (length (excludeFilter op) ≠ 0%nat)
             then filterMatches op else inl op) with
      | inr e => Some (st, op, Some e)
      | inl op =>
        match (if bool_decide (sort op ≠ "") then sortBy (world st) op else Some op) with
        | None => None
        | Some op =>
          match replace (world st) op with
          | inr e => Some (st, op, Some e)
          | inl op => Some (apply st op)
          end
        end
      end
    end.

End Operation.

(** ** Paths (Go's [path/filepath], with the separator of Unix) *)

Module filepath.

(** [strings.Split(path, "/")]. *)
Fixpoint Split (path : string) : list string :=
  match path with
  | EmptyString => [""]
  | String c rest =>
    if Ascii.eqb c "/" then "" :: Split rest
    else match Split rest with
         | seg :: segs => String c seg :: segs
         | [] => [String c ""]
         end
  end.

(** The elements of a cleaned path; [out] holds, last first, those kept
    so far.  Empty elements and "." go, ".." takes the element before
    it with it, and a ".." at the start of a rooted path goes. *)
Fixpoint cleanElems (rooted : bool) (elems out : list string) : list string :=
  match elems with
  | [] => rev out
  | e :: elems' =>
    if decide (e = "") then cleanElems rooted elems' out
    else if decide (e = ".") then cleanElems rooted elems' out
    else if decide (e = "..") then
      match out with
      | top :: out' =>
        if decide (top = "..") then cleanElems rooted elems' (e :: out)
        else cleanElems rooted elems' out'
      | [] => if rooted then cleanElems rooted elems' [] else cleanElems rooted elems' [e]
      end
    else cleanElems rooted elems' (e :: out)
  end.

(** [filepath.Clean(path)]. *)
Definition Clean (path : string) : string :=
  let rooted := String.prefix "/" path in
  let body := String.concat "/" (cleanElems rooted (Split path) []) in
  if rooted then "/" +:+ body
  else if decide (body = "") then "." else body.

(** [filepath.Join(a, b)]: empty elements are ignored and the result is
    cleaned. *)
Definition Join (a b : string) : string :=
  if decide (a = "") then (if decide (b = "") then "" else Clean b)
  else Clean (a +:+ "/" +:+ b).

(** [filepath.Dir(path)]: all but the last element of the path,
    cleaned. *)
Definition Dir (path : string) : string :=
  match removelast (Split path) with
  | [] => Clean ""
  | elems => Clean (String.concat "/" elems +:+ "/")
  end.

End filepath.

(** ** The JSON codec (Go's [encoding/json], on the strings of a journal)

    [json.MarshalIndent] writes a string as it is when it is well-formed
    UTF-8 (escapes are undone by [json.Unmarshal]) and writes the
    replacement character U+FFFD for every byte that starts no well-formed
    encoding. *)

Module json.

Definition between (lo hi : nat) (c : ascii) : bool :=
  (lo <=? nat_of_ascii c)%nat && (nat_of_ascii c <=? hi)%nat.

(** A continuation byte of an encoding. *)
Definition cont (c : ascii) : bool := between 128 191 c.

(** [utf8.DecodeRuneInString(s)], as the encoder reads it: the size of the
    encoding that [s] starts with; [None] is the result (RuneError, 1) of a
    byte that starts none.  The second byte of an encoding is held to the
    range its first byte accepts. *)
Definition runeSize (s : string) : option nat :=
  match s with
  | EmptyString => None
  | String c0 rest =>
    let n0 := nat_of_ascii c0 in
    if (n0 <? 128)%nat then Some 1%nat
    else if (n0 <? 194)%nat then None
    else if (n0 <? 224)%nat then
      match rest with
      | String c1 _ => if cont c1 then Some 2%nat else None
      | _ => None
      end
    else if (n0 <? 240)%nat then
      match rest with
      | String c1 (String c2 _) =>
        let lo := if (n0 =? 224)%nat then 160%nat else 128%nat in
        let hi := if (n0 =? 237)%nat then 159%nat else 191%nat in
        if between lo hi c1 && cont c2 then Some 3%nat else None
      | _ => None
      end
    else if (n0 <? 245)%nat then
      match rest with
      | String c1 (String c2 (String c3 _)) =>
        let lo := if (n0 =? 240)%nat then 144%nat else 128%nat in
        let hi := if (n0 =? 244)%nat then 143%nat else 191%nat in
        if between lo hi c1 && cont c2 && cont c3 then Some 4%nat else None
      | _ => None
      end
    else None
  end.

(** U+FFFD in UTF-8: the bytes EF BF BD. *)
Definition replacement : string :=
  String (ascii_of_nat 239) (String (ascii_of_nat 191) (String (ascii_of_nat 189) "")).

(** The string that [json.Unmarshal] reads back from what
    [json.MarshalIndent] wrote for [s]; [skip] counts the bytes still to
    copy of the encoding under way. *)
Fixpoint coerce (skip : nat) (s : string) : string :=
  match s with
  | EmptyString => EmptyString
  | String c rest =>
    match skip with
    | S k => String c (coerce k rest)
    | O =>
      match runeSize s with
      | Some n => String c (coerce (n - 1) rest)
      | None => replacement +:+ coerce 0 rest
      end
    end
  end.

Definition coerceChange (m : Change) : Change :=
  mkChange (coerce 0 (BaseDir m)) (coerce 0 (Source m)) (coerce 0 (Target m)) (IsDir m).

(** The journal that is read back from the document written for [mf]. *)
Definition roundTrip (mf : mapFile) : mapFile :=
  mkMapFile (coerce 0 (Date mf)) (map coerceChange (Operations mf)).

End json.

(** ** A filesystem in memory

    An instance of the interface, on which the operation runs: a name
    space from cleaned paths to what they hold (a file or a folder), a list
    of paths the user may not touch, and a clock.  The working directory
    ".", the root "/" and the directories above the working directory are
    always there; every other folder is an entry of its own. *)

(** A file holds a journal document or other data. *)
Inductive Content : Type :=
| Journal (mf : mapFile)
| Raw (data : string)
| Folder.

Record MemFS : Type := mkMemFS {
  files : gmap string Content;
  denied : list string;
  clock : time.Time
}.

Definition set_files (fs : gmap string Content) (w : MemFS) : MemFS :=
  mkMemFS fs (denied w) (clock w).

Definition permitted (p : string) (w : MemFS) : bool := bool_decide (p ∉ denied w).

(** The working directory, the root, and "..", "../.." and so on. *)
Definition isRoot (p : string) : bool :=
  bool_decide (p = "." ∨ p = "/")
  || forallb (λ e, bool_decide (e = "..")) (filepath.Split p).

(** A path the system takes: it is not empty, holds no NUL byte, is
    shorter than PATH_MAX, and none of its elements is longer than
    NAME_MAX. *)
Definition nameOK (p : string) : bool :=
  negb (bool_decide (p = ""))
  && negb (strings.Contains p (String (ascii_of_nat 0) ""))
  && (String.length p <? 4096)%nat
  && forallb (λ e, (String.length e <=? 255)%nat) (filepath.Split p).

(** The error of a path the system does not take. *)
Definition nameError (p : string) : string :=
  if decide (p = "") then "no such file or directory"
  else if strings.Contains p (String (ascii_of_nat 0) "") then "invalid argument"
  else "file name too long".

(** What is at the path [p]. *)
Definition node (p : string) (w : MemFS) : option Content :=
  if isRoot p then Some Folder
  else if nameOK p then files w !! p
  else None.

(** [p] is a directory. *)
Definition isFolder (p : string) (w : MemFS) : bool :=
  match node p w with Some Folder => true | _ => false end.

(** [p] lies below the directory [dir]. *)
Definition below (dir p : string) : bool := String.prefix (dir +:+ "/") p.

Definition inTree (old p : string) : bool := bool_decide (p = old) || below old p.

(** Where the path [p] of the tree at [old] is after the tree has moved to
    [new]. *)
Definition moved (old new p : string) : string :=
  if decide (p = old) then new
  else if below old p then new +:+ strings.from (String.length old) p
  else p.

(** The directory [old] moves to [new] with everything below it. *)
Definition moveTree (old new : string) (fs : gmap string Content) : gmap string Content :=
  list_to_map (prod_map (moved old new) id
                 <$> map_to_list (filter (λ kv, inTree old kv.1 = true) fs))
  ∪ filter (λ kv, inTree old kv.1 = false) fs.

(** [os.Rename]: the old path must be there, the new path may not be a
    directory (the library refuses that before the system call) and its
    parent must be one; a file replaces the file at the new path, a
    directory moves with everything below it. *)
Definition mem_Rename (old new : string) (w : MemFS) : MemFS * option oserror :=
  if permitted old w && permitted new w then
    match node old w with
    | Some c =>
      if isRoot old
      then (w, Some (LinkError "rename" old new "device or resource busy"))
      else if negb (nameOK new)
      then (w, Some (LinkError "rename" old new (nameError new)))
      else
        match node new w with
        | Some Folder => (w, Some (LinkError "rename" old new "file exists"))
        | tgt =>
          if isFolder (filepath.Dir new) w then
            match c with
            | Folder =>
              if bool_decide (is_Some tgt)
              then (w, Some (LinkError "rename" old new "not a directory"))
              else if below old new
              then (w, Some (LinkError "rename" old new "invalid argument"))
              else (set_files (moveTree old new (files w)) w, None)
            | _ => (set_files (<[new := c]> (delete old (files w))) w, None)
            end
          else
            match node (filepath.Dir new) w with
            | Some _ => (w, Some (LinkError "rename" old new "not a directory"))
            | None => (w, Some (LinkError "rename" old new "no such file or directory"))
            end
        end
    | None => (w, Some (LinkError "rename" old new "no such file or directory"))
    end
  else (w, Some (LinkError "rename" old new "permission denied")).

(** The path and the directories above it, outermost first. *)
Definition ancestors (path : string) : list string :=
  let elems := filepath.Split (filepath.Clean path) in
  filter (λ q, q ≠ "" ∧ q ≠ "." ∧ q ≠ "/")
         ((λ k, String.concat "/" (take k elems)) <$> seq 1 (length elems)).

(** [os.MkdirAll]: every directory of the path that is missing is made; a
    file in the way is an error. *)
Definition mkdirStep (acc : MemFS * option oserror) (q : string) : MemFS * option oserror :=
  match acc with
  | (w, Some e) => (w, Some e)
  | (w, None) =>
    match node q w with
    | Some Folder => (w, None)
    | Some _ => (w, Some (PathError "mkdir" q "not a directory"))
    | None => (set_files (<[q := Folder]> (files w)) w, None)
    end
  end.

Definition mem_MkdirAll (path : string) (w : MemFS) : MemFS * option oserror :=
  if permitted path w then
    if nameOK path then foldl mkdirStep (w, None) (ancestors path)
    else (w, Some (PathError "mkdir" path (nameError path)))
  else (w, Some (PathError "mkdir" path "permission denied")).

(** [os.Create]: the file is made or emptied; its directory must be
    there. *)
Definition mem_Create (name : string) (w : MemFS) : MemFS * option oserror :=
  if permitted name w then
    if nameOK name then
      match node name w with
      | Some Folder => (w, Some (PathError "open" name "is a directory"))
      | _ =>
        if isFolder (filepath.Dir name) w
        then (set_files (<[name := Raw ""]> (files w)) w, None)
        else (w, Some (PathError "open" name "no such file or directory"))
      end
    else (w, Some (PathError "open" name (nameError name)))
  else (w, Some (PathError "open" name "permission denied")).

Definition mem_Write (name : string) (b : Content) (w : MemFS) : MemFS * option oserror :=
  (set_files (<[name := b]> (files w)) w, None).

Definition mem_ReadFile (name : string) (w : MemFS) : Content + oserror :=
  match node name w with
  | Some Folder => inr (PathError "read" name "is a directory")
  | Some c => inl c
  | None => inr (PathError "open" name "no such file or directory")
  end.

(** [os.Stat(name)] and [Size()].  The size of a directory is that of its
    entry table, which depends on the filesystem; it is 4096 here.  A
    journal is held decoded, and counts one byte for each of its entries. *)
Definition mem_Size (name : string) (w : MemFS) : option Z :=
  match node name w with
  | Some (Raw data) => Some (Z.of_nat (String.length data))
  | Some (Journal mf) => Some (Z.of_nat (length (Operations mf)))
  | Some Folder => Some 4096%Z
  | None => None
  end.

Definition mem_times (name : string) (w : MemFS) : option Timespec :=
  match node name w with
  | Some _ => Some (mkTimespec 0 0 0 0 false false)
  | None => None
  end.

(** A journal document is held decoded: what is written is what is read
    back from it. *)
Definition mem_Marshal (mf : mapFile) : Content := Journal (json.roundTrip mf).

Definition mem_Unmarshal (b : Content) : mapFile + string :=
  match b with
  | Journal mf => inl mf
  | _ => inr "invalid character looking for beginning of value"
  end.

#[global] Instance MemOS : OS MemFS := {|
  Bytes := Content;
  GOOS := "linux";
  filepath_Join := filepath.Join;
  filepath_Dir := filepath.Dir;
  time_Now := clock;
  os_MkdirAll := mem_MkdirAll;
  os_Rename := mem_Rename;
  os_Create := mem_Create;
  file_Write := mem_Write;
  file_Close := fun _ w => (w, None);
  os_ReadFile := mem_ReadFile;
  os_Stat_Size := mem_Size;
  times_Stat := mem_times;
  json_MarshalIndent := mem_Marshal;
  json_Unmarshal := mem_Unmarshal
|}.

(** Modelled from the spec: the conflict validator is declared outside
    operation.go.  Detection follows the spec's list of conflict kinds: an
    unchanged name leaves the batch; a target that two candidates share,
    a target that exists on disk and is not the source of a candidate of
    the batch, an empty target and a target that ends in a period are
    conflicts, grouped by kind.  Auto-fix is not modelled: this validator
    reports and leaves the targets as they are. *)
Definition endsInPeriod (s : string) : bool :=
  match String.length s with
  | O => false
  | S n => bool_decide (String.get n s = Some "."%char)
  end.

Definition conflictOf (m : Change) : Conflict :=
  mkConflict [filepath.Join (BaseDir m) (Source m)] (filepath.Join (BaseDir m) (Target m)).

Definition detectConflicts (w : MemFS) (op : Operation)
  : gmap conflict (list Conflict) * list Change :=
  let ms := filter (fun m => Target m ≠ Source m) (matches op) in
  let tgt m := filepath.Join (BaseDir m) (Target m) in
  let src m := filepath.Join (BaseDir m) (Source m) in
  let kinds := [
    (duplicateTarget,
     filter (fun m => (2 ≤ length (filter (fun m' => tgt m' = tgt m) ms))%nat) ms);
    (targetExists,
     filter (fun m => is_Some (files w !! tgt m) ∧ tgt m ∉ map src ms) ms);
    (emptyResult,
     filter (fun m => Target m = "" ∨ Target m = "/") ms);
    (trailingPeriod,
     filter (fun m => endsInPeriod (Target m) = true) ms)
  ] in
  (foldr (fun '(k, l) cs => match l with [] => cs | _ => <[k := map conflictOf l]> cs end)
         ∅ kinds,
   ms).

(** ** The matcher, the transformer and the options

    [findMatches], [filterMatches], [replaceString], [replace] and
    [setOptions] of operation.go.  The regular-expression engine, the
    functions of the [strings] and [filepath] packages that are not
    modelled above, and the helpers declared outside operation.go are
    parameters.  A compiled expression is named by a string (its source,
    for the engine of the library); [None] stands for the panic of a call
    on an expression that is nil. *)

(** The flags and arguments of the command line, as [cli.Context] hands
    them out. *)
Module cli.

Record Context : Type := mkContext {
  output_file : string;
  find : string;
  replace : string;
  exec : bool;
  fix_conflicts : bool;
  include_dir : bool;
  hidden : bool;
  ignore_case : bool;
  ignore_ext : bool;
  recursive : bool;
  args : list string;
  undo : string;
  only_dir : bool;
  string_mode : bool;
  exclude : list string;
  max_depth : Z;
  quiet : bool;
  sort : string;
  sortr : string
}.

End cli.

Section Pipeline.
Context {W : Type} `{OS W}.

(** [filepath.Base], [filepath.Ext], [strings.ToLower], [strings.ToUpper],
    [strings.Title] and [strings.ReplaceAll]. *)
Variable filepath_Base : string -> string.
Variable filepath_Ext : string -> string.
Variable strings_ToLower : string -> string.
Variable strings_ToUpper : string -> string.
Variable strings_Title : string -> string.
Variable strings_ReplaceAll : string -> string -> string -> string.

(** [regexp.Compile], and [MatchString], [FindAllString(s, -1)] and
    [ReplaceAllString] of a compiled expression. *)
Variable regexp_Compile : string -> string + error.
Variable regexp_MatchString : string -> string -> bool.
Variable regexp_FindAllString : string -> string -> list string.
Variable regexp_ReplaceAllString : string -> string -> string -> string.

(** [isHidden(filename, baseDir)], [filenameWithoutExtension(fileName)],
    [op.handleVariables(str, v)], [indexRegex.Match] and
    [op.replaceIndex(str, i)], declared outside operation.go. *)
Variable isHidden : W -> string -> string -> bool + error.
Variable filenameWithoutExtension : string -> string.
Variable handleVariables : W -> Operation -> string -> Change -> string + error.
Variable indexRegex_Match : string -> bool.
Variable replaceIndex : Operation -> string -> nat -> string + error.

(** The loop of [findMatches] over the paths still to look at; [ms] holds
    the matches so far. *)
Fixpoint findLoop (w : W) (op : Operation) (ps ms : list Change)
  : option (list Change * option error) :=
  match ps with
  | [] => Some (ms, None)
  | v :: ps' =>
    let filename := filepath_Base (Source v) in
    if IsDir v && negb (includeDir op) then findLoop w op ps' ms
    else if onlyDir op && negb (IsDir v) then findLoop w op ps' ms
    else
      (* ignore dotfiles on unix and hidden files on windows *)
      match (if negb (includeHidden op) then isHidden w filename (BaseDir v) else inl false) with
      | inr e => Some (ms, Some e)
      | inl true => findLoop w op ps' ms
      | inl false =>
        let f := if ignoreExt op then filenameWithoutExtension filename else filename in
        if stringMode op then
          let findStr := findString op in
          let f := if ignoreCase op then strings_ToLower f else f in
          let findStr := if ignoreCase op then strings_ToLower findStr else findStr in
          if strings.Contains f findStr then findLoop w op ps' (ms ++ [v])
          else findLoop w op ps' ms
        else
          match searchRegex op with
          | None => None
          | Some re =>
            if regexp_MatchString re f then findLoop w op ps' (ms ++ [v])
            else findLoop w op ps' ms
          end
      end
  end.

(** [findMatches] locates matches for the search pattern in each
    filename.  The matches found before an error stay in the operation. *)
Definition findMatches (w : W) (op : Operation) : option (Operation * option error) :=
  r ← findLoop w op (paths op) (matches op); Some (set_matches r.1 op, r.2).

(** [filterMatches] excludes any files or directories that match the
    find pattern in accordance with the provided exclude pattern. *)
Definition filterMatches (op : Operation) : Operation * option error :=
  let filters := String.concat "|" (excludeFilter op) in
  match regexp_Compile filters with
  | inr e => (op, Some e)
  | inl regex =>
    let filtered :=
      fold_left (fun filtered m =>
                   if negb (regexp_MatchString regex (Source m)) then filtered ++ [m]
                   else filtered)
                (matches op) [] in
    (set_matches filtered op, None)
  end.

(** The case of one match in the loop of [replaceString]: the switch has
    no default. *)
Definition replaceCase (replacement str v : string) : string :=
  if decide (replacement = "\Cu") then strings_ReplaceAll str v (strings_ToUpper v)
  else if decide (replacement = "\Cl") then strings_ReplaceAll str v (strings_ToLower v)
  else if decide (replacement = "\Ct")
       then strings_ReplaceAll str v (strings_Title (strings_ToLower v))
  else str.

Definition replaceString (op : Operation) (fileName : string) : option string :=
  let findString := if decide (findString op = "") then fileName else findString op in
  let replacement := replacement op in
  if String.prefix "\C" replacement && (String.length replacement =? 3)%nat then
    re ← searchRegex op;
    Some (fold_left (replaceCase replacement) (regexp_FindAllString re fileName) fileName)
  else if stringMode op then
    if ignoreCase op then
      re ← searchRegex op; Some (regexp_ReplaceAllString re fileName replacement)
    else Some (strings_ReplaceAll fileName findString replacement)
  else
    re ← searchRegex op; Some (regexp_ReplaceAllString re fileName replacement).

(** The loop of [replace]: [i] is the index of [v] in the matches, and the
    operation holds the targets written so far. *)
Fixpoint replaceLoop (w : W) (todo : list Change) (i : nat) (op : Operation)
  : option (Operation * option error) :=
  match todo with
  | [] => Some (op, None)
  | v :: todo' =>
    let fileName := filepath_Base (Source v) in
    let dir := filepath_Dir (Source v) in
    let fileExt := filepath_Ext fileName in
    let fileName := if ignoreExt op then filenameWithoutExtension fileName else fileName in
    str ← replaceString op fileName;
    (* handle variables *)
    match handleVariables w op str v with
    | inr e => Some (op, Some e)
    | inl str =>
      (* If numbering scheme is present *)
      match (if indexRegex_Match str then replaceIndex op str i else inl str) with
      | inr e => Some (op, Some e)
      | inl str =>
        let str := if ignoreExt op then str +:+ fileExt else str in
        let v' := mkChange (BaseDir v) (Source v) (filepath_Join dir str) (IsDir v) in
        replaceLoop w todo' (S i) (set_matches (<[i := v']> (matches op)) op)
      end
    end
  end.

(** [replace] replaces the matched text in each path with the replacement
    string. *)
Definition replace (w : W) (op : Operation) : option (Operation * option error) :=
  replaceLoop w (matches op) 0 op.

(** [setOptions] applies the command line arguments onto the operation.
    The fields are assigned before the pattern is compiled, and stay
    assigned when it does not compile. *)
Definition setOptions (op : Operation) (c : cli.Context) : Operation * option error :=
  let sort' := if decide (cli.sort c ≠ "") then cli.sort c
               else if decide (cli.sortr c ≠ "") then cli.sortr c
               else sort op in
  let reverseSort' := if decide (cli.sort c ≠ "") then reverseSort op
                      else if decide (cli.sortr c ≠ "") then true
                      else reverseSort op in
  let includeDir' := if cli.only_dir c then true else cli.include_dir c in
  let assigned (re : option string) :=
    mkOperation (paths op) (matches op) (conflicts op) (cli.find c) (cli.replace c)
      (startNumber op) (cli.exec c) (cli.fix_conflicts c) (cli.hidden c) includeDir'
      (cli.only_dir c) (cli.ignore_case c) (cli.ignore_ext c) re (cli.args c)
      (cli.recursive c) (cli.undo c) (cli.output_file c) (workingDir op)
      (cli.string_mode c) (cli.exclude c) (cli.max_depth c) sort' reverseSort'
      (cli.quiet c) (errors op) in
  (* Match entire string if find pattern is empty *)
  let findPattern := if decide (cli.find c = "") then ".*" else cli.find c in
  let findPattern := if cli.ignore_case c then "(?i)" +:+ findPattern else findPattern in
  match regexp_Compile findPattern with
  | inr e => (assigned (searchRegex op), Some e)
  | inl re => (assigned (Some re), None)
  end.

End Pipeline.

(** ** Vocabulary of the statements *)

(** A validator that finds nothing and leaves the batch as it is. *)
Definition acceptAll {W : Type} (w : W) (op : Operation)
  : gmap conflict (list Conflict) * list Change := (∅, matches op).

(** A path passes the directory modes of the matcher: a directory only
    when directories are included, a file only outside only-dir mode. *)
Definition passesModes (op : Operation) (v : Change) : bool :=
  negb (IsDir v && negb (includeDir op)) && negb (onlyDir op && negb (IsDir v)).

(** A match and what the transformer made of it differ in their target
    at most. *)
Definition sameEntry (m m' : Change) : Prop :=
  BaseDir m' = BaseDir m ∧ Source m' = Source m ∧ IsDir m' = IsDir m.

(** Two operations that agree on every field but the quiet flag. *)
Definition upto_quiet (a b : Operation) : Prop := set_quiet false a = set_quiet false b.

(** The path an entry of the journal has now, and the one it had. *)
Definition currentPath (m : Change) : string := filepath.Join (BaseDir m) (Target m).
Definition originalPath (m : Change) : string := filepath.Join (BaseDir m) (Source m).

(** A regular file is at [p]. *)
Definition isFile (p : string) (w : MemFS) : Prop :=
  ∃ c, node p w = Some c ∧ c ≠ Folder.

(** Nothing is at [p], which is a path the system takes. *)
Definition free (p : string) (w : MemFS) : Prop :=
  nameOK p = true ∧ node p w = None.

(** A candidate that is renamed in place: a regular file is at its source
    path, nothing is at its target path, the directory of the target path
    is there, and the target name holds no slash (no directory is to be
    made for it). *)
Definition inPlace (w : MemFS) (m : Change) : Prop :=
  isFile (originalPath m) w
  ∧ free (currentPath m) w
  ∧ isFolder (filepath.Dir (currentPath m)) w = true
  ∧ strings.Contains (Target m) "/" = false.

(** A path at which a journal can be written: the system takes it, it is
    no directory and its directory is there. *)
Definition writable (p : string) (w : MemFS) : Prop :=
  nameOK p = true ∧ node p w ≠ Some Folder ∧ isFolder (filepath.Dir p) w = true.

(** The names of a candidate are well-formed UTF-8: the JSON codec gives
    them back as they are. *)
Definition wellFormed (m : Change) : Prop := json.coerceChange m = m.

Section Vocabulary.
Context {W : Type} `{OS W}.
Variable validate : W -> Operation -> gmap conflict (list Conflict) * list Change.

(** [previews n st op]: [n] successive runs of [apply], each over the
    same candidate set [op], on the world the run before left. *)
Fixpoint previews (n : nat) (st : State W) (op : Operation)
  : State W * list (Operation * option error) :=
  match n with
  | O => (st, [])
  | S n' =>
    let '(st1, op1, e1) := apply validate st op in
    let '(st2, rs) := previews n' st1 op in
    (st2, (op1, e1) :: rs)
  end.

(** The call that ends the executor's work on a candidate: its
    [os.Rename], or the [os.MkdirAll] that failed before it. *)
Definition is_final (e : Event) : bool :=
  match e with
  | EvRename _ _ _ | EvMkdirAll _ (Some _) => true
  | _ => false
  end.

Definition concludes (ch : Change) (e : Event) : Prop :=
  (∃ r, e = EvRename (sourcePath ch) (targetPath ch) r)
  ∨ (∃ x, needsDir ch = true
          ∧ e = EvMkdirAll (filepath_Join (BaseDir ch) (filepath_Dir (Target ch))) (Some x)).

(** The error of a call that failed. *)
Definition failure (e : Event) : option oserror :=
  match e with
  | EvMkdirAll _ r | EvRename _ _ r | EvCreate _ r | EvWrite _ _ r | EvClose _ r => r
  | _ => None
  end.

(** What the executor does for the candidate [ch] on the world [w], in
    calls of the operating system: when a directory is to be made for the
    target, [os.MkdirAll] and, if that succeeds, [os.Rename] on the world it
    leaves; otherwise [os.Rename] alone.  [w'] is the world the last call
    leaves and [r] its result. *)
Definition attempted (ch : Change) (w w' : W) (r : option oserror) : Prop :=
  let dir := filepath_Join (BaseDir ch) (filepath_Dir (Target ch)) in
  if needsDir ch then
    (∃ e, os_MkdirAll dir w = (w', Some e) ∧ r = Some e)
    ∨ (∃ w1, os_MkdirAll dir w = (w1, None)
             ∧ os_Rename (sourcePath ch) (targetPath ch) w1 = (w', r))
  else os_Rename (sourcePath ch) (targetPath ch) w = (w', r).

(** Every candidate of a list is attempted in turn, each on the world the
    one before it left, whatever the results before it. *)
Inductive attempts : W -> list Change -> W -> list (option oserror) -> Prop :=
| attempts_nil w : attempts w [] w []
| attempts_cons w w1 w' ch ms r rs :
    attempted ch w w1 r -> attempts w1 ms w' rs -> attempts w (ch :: ms) w' (r :: rs).

(** Every candidate of a list is renamed in turn by one call of
    [os.Rename], and by no other call. *)
Inductive renames : W -> list Change -> W -> list (option oserror) -> Prop :=
| renames_nil w : renames w [] w []
| renames_cons w w1 w' ch ms r rs :
    os_Rename (sourcePath ch) (targetPath ch) w = (w1, r) ->
    renames w1 ms w' rs -> renames w (ch :: ms) w' (r :: rs).

(** The error recorded for a candidate and the result of its attempt. *)
Definition failed (p : Change * option oserror) : option renameError :=
  mkRenameError p.1 <$> p.2.

(** The quantity [sortBy] orders the matches by: the size of the file, or
    the instant that the sort key names. *)
Definition sortKey (w : W) (op : Operation) (m : Change) : option Z :=
  if decide (sort op = "size") then os_Stat_Size (sourcePath m) w
  else sortTime (sort op) <$> times_Stat (sourcePath m) w.

(** The sort keys [sortBy] knows. *)
Definition sortKeys : list string := ["size"; accessTime; modTime; birthTime; changeTime].

(** The order [sortBy] puts two keys in: the larger first, the smaller
    first under [reverseSort]. *)
Definition keyOrder (op : Operation) (ka kb : Z) : Prop :=
  if reverseSort op then (ka <= kb)%Z else (kb <= ka)%Z.

(** The target names of the candidates that failed. *)
Definition failedTargets (op : Operation) : list string :=
  map (λ v, Target (entry v)) (errors op).

End Vocabulary.

(** ** Sample runs

    Inputs on the filesystem in memory, with the validator modelled from
    the spec, for the statements that are about one run. *)

Module Sample.

Definition t0 : time.Time := time.mkTime 2021 3 5 14 7 9 0.

(** An operation with every option off. *)
Definition op0 : Operation :=
  mkOperation [] [] ∅ "" "" 1 false false false false false false false None []
              false "" "" "" false [] 0 "" false false [].

Definition with_exec (b : bool) (op : Operation) : Operation :=
  mkOperation (paths op) (matches op) (conflicts op) (findString op) (replacement op)
    (startNumber op) b (fixConflicts op) (includeHidden op) (includeDir op)
    (onlyDir op) (ignoreCase op) (ignoreExt op) (searchRegex op) (directories op)
    (recursive op) (undoFile op) (outputFile op) (workingDir op) (stringMode op)
    (excludeFilter op) (maxDepth op) (sort op) (reverseSort op) (quiet op) (errors op).

Definition with_includeDir (b : bool) (op : Operation) : Operation :=
  mkOperation (paths op) (matches op) (conflicts op) (findString op) (replacement op)
    (startNumber op) (exec op) (fixConflicts op) (includeHidden op) b
    (onlyDir op) (ignoreCase op) (ignoreExt op) (searchRegex op) (directories op)
    (recursive op) (undoFile op) (outputFile op) (workingDir op) (stringMode op)
    (excludeFilter op) (maxDepth op) (sort op) (reverseSort op) (quiet op) (errors op).

Definition with_undoFile (f : string) (op : Operation) : Operation :=
  mkOperation (paths op) (matches op) (conflicts op) (findString op) (replacement op)
    (startNumber op) (exec op) (fixConflicts op) (includeHidden op) (includeDir op)
    (onlyDir op) (ignoreCase op) (ignoreExt op) (searchRegex op) (directories op)
    (recursive op) f (outputFile op) (workingDir op) (stringMode op)
    (excludeFilter op) (maxDepth op) (sort op) (reverseSort op) (quiet op) (errors op).

Definition with_outputFile (f : string) (op : Operation) : Operation :=
  mkOperation (paths op) (matches op) (conflicts op) (findString op) (replacement op)
    (startNumber op) (exec op) (fixConflicts op) (includeHidden op) (includeDir op)
    (onlyDir op) (ignoreCase op) (ignoreExt op) (searchRegex op) (directories op)
    (recursive op) (undoFile op) f (workingDir op) (stringMode op)
    (excludeFilter op) (maxDepth op) (sort op) (reverseSort op) (quiet op) (errors op).

(** Two files, "a" and "b", in the working directory. *)
Definition two_files : MemFS :=
  mkMemFS (<["a" := Raw "A"]> (<["b" := Raw "B"]> ∅)) [] t0.

(** "a" is to become "b", which exists and is not being renamed. *)
Definition clash : Operation :=
  with_exec true (set_matches [mkChange "" "a" "b" false] op0).

(** Three candidates in two directories; the target of the first may not
    be written. *)
Definition c1 : Change := mkChange "d1" "a.txt" "b.txt" false.
Definition c2 : Change := mkChange "d2" "a.txt" "b.txt" false.
Definition c3 : Change := mkChange "d1" "c.txt" "d.txt" false.

Definition three_files : MemFS :=
  mkMemFS (<["d1" := Folder]>
             (<["d2" := Folder]>
                (<["d1/a.txt" := Raw "1"]>
                   (<["d2/a.txt" := Raw "2"]> (<["d1/c.txt" := Raw "3"]> ∅)))))
          ["d1/b.txt"] t0.

Definition three : Operation := with_exec true (set_matches [c1; c2; c3] op0).

(** A file in "a" and a directory in "a/b/c", directories included. *)
Definition file_a : Change := mkChange "a" "x.txt" "y.txt" false.
Definition dir_abc : Change := mkChange "a/b/c" "d" "e" true.

Definition file_then_dir : Operation :=
  with_includeDir true (with_exec true (set_matches [file_a; dir_abc] op0)).

(** A chain: "b" becomes "c" and then "a" becomes "b"; the journal goes
    to "undo.json". *)
Definition chain : Operation :=
  with_outputFile "undo.json"
    (with_exec true (set_matches [mkChange "" "b" "c" false; mkChange "" "a" "b" false] op0)).

(** The undo of whatever journal "undo.json" holds. *)
Definition undo_op : Operation := with_undoFile "undo.json" (with_exec true op0).

(** After "a" was renamed to "b" and the journal written, a new "a" has
    appeared. *)
Definition renamed_then_recreated : MemFS :=
  mkMemFS (<["a" := Raw "new"]>
             (<["b" := Raw "A"]>
                (<["undo.json" := Journal (mkMapFile "2021-03-05T14:07:09Z"
                                                     [mkChange "" "a" "b" false])]> ∅)))
          [] t0.

(** A preview of renaming "a" to "c". *)
Definition preview_op : Operation := set_matches [mkChange "" "a" "c" false] op0.

(** "a" is renamed to "c", with the journal in "undo.json". *)
Definition a_to_c : Operation := with_outputFile "undo.json" (with_exec true preview_op).

(** Stages of a matcher and a transformer that leave the operation as it
    is. *)
Definition idle_stage (w : MemFS) (op : Operation) : Operation + error := inl op.
Definition idle_filter (op : Operation) : Operation + error := inl op.

Definition with_fixConflicts (b : bool) (op : Operation) : Operation :=
  mkOperation (paths op) (matches op) (conflicts op) (findString op) (replacement op)
    (startNumber op) (exec op) b (includeHidden op) (includeDir op)
    (onlyDir op) (ignoreCase op) (ignoreExt op) (searchRegex op) (directories op)
    (recursive op) (undoFile op) (outputFile op) (workingDir op) (stringMode op)
    (excludeFilter op) (maxDepth op) (sort op) (reverseSort op) (quiet op) (errors op).

Definition with_sort (key : string) (op : Operation) : Operation :=
  mkOperation (paths op) (matches op) (conflicts op) (findString op) (replacement op)
    (startNumber op) (exec op) (fixConflicts op) (includeHidden op) (includeDir op)
    (onlyDir op) (ignoreCase op) (ignoreExt op) (searchRegex op) (directories op)
    (recursive op) (undoFile op) (outputFile op) (workingDir op) (stringMode op)
    (excludeFilter op) (maxDepth op) key (reverseSort op) (quiet op) (errors op).

(** The first candidate of the three, alone, after its rename failed. *)
Definition first_failed : Operation :=
  set_errors [mkRenameError c1 (LinkError "rename" "d1/a.txt" "d1/b.txt" "permission denied")]
             (with_exec true (set_matches [c1] op0)).

(** A journal that lists no operation. *)
Definition empty_journal : MemFS :=
  mkMemFS (<["undo.json" := Journal (mkMapFile "2021-03-05T14:07:09Z" [])]> ∅) [] t0.

(** Files of one, two and three bytes, matched before their targets are
    computed, to be sorted by size. *)
Definition sized_files : MemFS :=
  mkMemFS (<["s1" := Raw "1"]> (<["s2" := Raw "22"]> (<["s3" := Raw "333"]> ∅))) [] t0.

Definition by_size : Operation :=
  with_sort "size"
    (set_matches [mkChange "" "s2" "" false; mkChange "" "s3" "" false;
                  mkChange "" "s1" "" false] op0).

(** Files of which two have one byte and two have two, to be sorted by
    size. *)
Definition tied_files : MemFS :=
  mkMemFS (<["t1" := Raw "aa"]> (<["t2" := Raw "b"]> (<["t3" := Raw "cc"]>
             (<["t4" := Raw "d"]> ∅)))) [] t0.

Definition t1 : Change := mkChange "" "t1" "" false.
Definition t2 : Change := mkChange "" "t2" "" false.
Definition t3 : Change := mkChange "" "t3" "" false.
Definition t4 : Change := mkChange "" "t4" "" false.

Definition by_size_tied : Operation := with_sort "size" (set_matches [t2; t1; t4; t3] op0).

(** The same sort where one of the files is gone. *)
Definition by_size_missing : Operation :=
  with_sort "size"
    (set_matches [mkChange "" "s2" "" false; mkChange "" "gone" "" false] op0).

(** After "a" was renamed to "b" and "c" to "d" and the journal written, a
    new "a" has appeared; and the undo of that journal in preview, sorted
    by size. *)
Definition journal_ab_cd : mapFile :=
  mkMapFile "2021-03-05T14:07:09Z" [mkChange "" "a" "b" false; mkChange "" "c" "d" false].

Definition renamed_two : MemFS :=
  mkMemFS (<["a" := Raw "new"]>
             (<["b" := Raw "A"]>
                (<["d" := Raw "CCC"]> (<["undo.json" := Journal journal_ab_cd]> ∅))))
          [] t0.

Definition undo_preview_by_size : Operation :=
  with_sort "size" (with_undoFile "undo.json" op0).

(** Directories at three depths, and the undo of a journal over three
    base directories. *)
Definition three_dirs : Operation :=
  with_includeDir true
    (with_exec true
       (set_matches [mkChange "a" "x" "y" true; mkChange "a/b/c" "x" "y" true;
                     mkChange "a/b" "x" "y" true] op0)).

Definition undo_three : Operation :=
  set_matches [mkChange "a/b/c" "y" "x" false; mkChange "a" "y" "x" true;
               mkChange "a/b" "y" "x" false] undo_op.

(** Stand-ins for the parameters of the matcher and the transformer, for
    the runs below: names are their own base and lower case, an
    expression matches the names that contain it and is replaced as a
    whole name, nothing is hidden, and no variable or index is expanded. *)
Definition base (s : string) : string := s.
Definition lower (s : string) : string := s.
Definition ext (s : string) : string := "".
Definition replaceAll (s old new : string) : string :=
  if strings.Contains s old then new else s.
Definition matchString (re s : string) : bool := strings.Contains s re.
Definition findAll (re s : string) : list string :=
  if strings.Contains s re then [re] else [].
Definition replaceAllRe (re s new : string) : string :=
  if strings.Contains s re then new else s.
Definition notHidden (w : MemFS) (filename baseDir : string) : bool + error := inl false.
Definition noVariables (w : MemFS) (op : Operation) (str : string) (v : Change)
  : string + error := inl str.
Definition noIndex (str : string) : bool := false.
Definition keepIndex (op : Operation) (str : string) (i : nat) : string + error := inl str.

(** A listing with two files and a directory; the find string "txt" in
    string mode, to be replaced by "md". *)
Definition listing : list Change :=
  [mkChange "" "a.txt" "" false; mkChange "" "txt.d" "" true; mkChange "" "b.md" "" false].

Definition find_txt : Operation :=
  mkOperation listing [] ∅ "txt" "md" 1 false false true false false false false None []
              false "" "" "" true [] 0 "" false false [].

Definition found_txt : Operation := set_matches [mkChange "" "a.txt" "" false] find_txt.

(** The same listing, every name to be found. *)
Definition find_all : Operation :=
  mkOperation listing [] ∅ "" "md" 1 false false true false false false false None []
              false "" "" "" true [] 0 "" false false [].

(** A case replacement with a letter that names no case. *)
Definition case_x : Operation :=
  mkOperation listing [] ∅ "a" "\Cx" 1 false false true false false false false (Some "a") []
              false "" "" "" false [] 0 "" false false [].

(** The flags of a run over directories only, with an empty find string
    in string mode. *)
Definition only_dirs : cli.Context :=
  cli.mkContext "" "" "md" false false false true false false false [] "" true true [] 0
                false "" "".

Definition listed : Operation :=
  mkOperation listing [] ∅ "" "" 1 false false false false false false false None []
              false "" "" "" false [] 0 "" false false [].

Definition compileAny (pattern : string) : string + error := inl pattern.

End Sample.

(** ** Properties of [apply] *)

Section ApplyFacts.
Context {W : Type} `{OS W}.
Variable validate : W -> Operation -> gmap conflict (list Conflict) * list Change.

Lemma length_zero_iff_nil {A} (l : list A) : length l = 0%nat <-> l = [].
Proof. destruct l; simpl; split; intros; congruence. Qed.

(** The blocking branch of [apply]. *)
Lemma apply_blocked st op :
  matches op ≠ [] ->
  fixConflicts op = false ->
  (validate (world st) op).1 ≠ ∅ ->
  ∃ st' op',
    apply validate st op = (st', op', Some errConflictDetected)
    ∧ world st' = world st
    ∧ ∃ evs, log st' = log st ++ evs ∧ Forall (fun e => is_fs_mutation e = false) evs.
Proof.
  intros Hne Hfix Hcs. unfold apply.
  destruct (decide (length (matches op) = 0%nat)) as [Hz|_].
  { apply length_zero_iff_nil in Hz. contradiction. }
  unfold run_validate.
  destruct (validate (world st) op) as [cs ms] eqn:Hv. simpl in Hcs.
  assert (Hsz : (0 <? size cs)%nat = true).
  { apply Nat.ltb_lt. destruct (decide (size cs = 0%nat)) as [Hs|Hs]; [|lia].
    apply map_size_empty_iff in Hs. contradiction. }
  cbn [conflicts set_conflicts fixConflicts set_matches quiet].
  rewrite Hsz, Hfix. cbn [negb andb].
  destruct (quiet op); eexists _, _; (split; [reflexivity|]); (split; [reflexivity|]);
    cbn [emit log world].
  - exists [EvValidate]. split; [reflexivity|]. repeat constructor.
  - exists [EvValidate; EvReportConflicts cs]. split.
    + by rewrite <- app_assoc.
    + repeat constructor.
Qed.

(** The calls of a preview never change the filesystem. *)
Lemma apply_preview st op :
  exec op = false ->
  ∃ st' op' e,
    apply validate st op = (st', op', e)
    ∧ world st' = world st
    ∧ ∃ evs, log st' = log st ++ evs ∧ Forall (fun e => is_fs_mutation e = false) evs.
Proof.
  intros Hexec. unfold apply.
  destruct (decide (length (matches op) = 0%nat)) as [Hz|_].
  { destruct (quiet op); eexists _, _, _; (split; [reflexivity|]); (split; [reflexivity|]).
    - exists []. by rewrite app_nil_r.
    - exists [EvPrintln "Failed to match any files"]. split; [reflexivity|]. repeat constructor. }
  unfold run_validate. destruct (validate (world st) op) as [cs ms].
  cbn [conflicts set_conflicts fixConflicts set_matches quiet exec]. rewrite Hexec.
  destruct ((0 <? size cs)%nat && negb (fixConflicts op)).
  - destruct (quiet op); eexists _, _, _; (split; [reflexivity|]); (split; [reflexivity|]);
      cbn [emit log world].
    + exists [EvValidate]. split; [reflexivity|]. repeat constructor.
    + exists [EvValidate; EvReportConflicts cs]. split; [by rewrite <- app_assoc|].
      repeat constructor.
  - destruct (quiet op); eexists _, _, _; (split; [reflexivity|]); (split; [reflexivity|]);
      unfold printChanges; cbn [emit log world].
    + exists [EvValidate]. split; [reflexivity|]. repeat constructor.
    + eexists [EvValidate; EvPrintTable _; EvPrintln _]. split.
      * rewrite <- !app_assoc. reflexivity.
      * repeat constructor.
Qed.

(** What a run of [apply] decides does not depend on the calls made
    before it. *)
Lemma apply_log_irrelevant w l1 l2 op :
  exec op = false ->
  (apply validate (mkState w l1) op).1.2 = (apply validate (mkState w l2) op).1.2
  ∧ (apply validate (mkState w l1) op).2 = (apply validate (mkState w l2) op).2.
Proof.
  intros Hexec. unfold apply.
  destruct (decide (length (matches op) = 0%nat)) as [Hz|_]; [done|].
  unfold run_validate. cbn [world]. destruct (validate w op) as [cs ms].
  cbn [conflicts set_conflicts fixConflicts set_matches quiet exec]. rewrite Hexec.
  destruct ((0 <? size cs)%nat && negb (fixConflicts op)); [done|].
  by destruct (quiet op).
Qed.

(** C1: when the validator reports at least one conflict on a batch and
    auto-fix is off, [apply] returns the blocking conflict error, leaves
    the world as it was, and makes no call that renames, creates a
    directory or writes a file. *)
Theorem apply_conflict_blocks_without_mutation st op :
  matches op ≠ [] ->
  fixConflicts op = false ->
  (validate (world st) op).1 ≠ ∅ ->
  ∃ st' op',
    apply validate st op = (st', op', Some errConflictDetected)
    ∧ world st' = world st
    ∧ ∃ evs, log st' = log st ++ evs ∧ Forall (fun e => is_fs_mutation e = false) evs.
Proof.
  intros Hne Hfix Hcs. unfold apply.
  destruct (decide (length (matches op) = 0%nat)) as [Hz|_].
  { apply length_zero_iff_nil in Hz. contradiction. }
  unfold run_validate.
  destruct (validate (world st) op) as [cs ms] eqn:Hv. simpl in Hcs.
  assert (Hsz : (0 <? size cs)%nat = true).
  { apply Nat.ltb_lt. destruct (decide (size cs = 0%nat)) as [Hs|Hs]; [|lia].
    apply map_size_empty_iff in Hs. contradiction. }
  cbn [conflicts set_conflicts fixConflicts set_matches quiet].
  rewrite Hsz, Hfix. cbn [negb andb].
  destruct (quiet op); eexists _, _; (split; [reflexivity|]); (split; [reflexivity|]);
    cbn [emit log world].
  - exists [EvValidate]. split; [reflexivity|]. repeat constructor.
  - exists [EvValidate; EvReportConflicts cs]. split.
    + by rewrite <- app_assoc.
    + repeat constructor.
Qed.

(** C9: on an empty match set [apply] returns nil, leaves the operation
    and the world as they were, and makes no call that reaches the
    filesystem (the validator is not run either). *)
Theorem apply_empty_batch_is_noop st op :
  matches op = [] ->
  ∃ st',
    apply validate st op = (st', op, None)
    ∧ world st' = world st
    ∧ ∃ evs, log st' = log st ++ evs ∧ Forall (fun e => is_fs_access e = false) evs.
Proof.
  intros Hm. unfold apply. rewrite Hm. cbn [length].
  destruct (decide (0%nat = 0%nat)) as [_|Hne]; [|done].
  destruct (quiet op); eexists; (split; [reflexivity|]); (split; [reflexivity|]).
  - exists []. by rewrite app_nil_r.
  - exists [EvPrintln "Failed to match any files"]. split; [reflexivity|]. repeat constructor.
Qed.

(** C7: in preview mode (execute flag off) any number of successive runs
    of [apply] over the same candidate set leave the world as it was, make
    no call that changes the filesystem, and each yield the same proposed
    batch and the same result as the first. *)
Theorem preview_is_pure_and_repeatable n st op :
  exec op = false ->
  ∃ st' rs,
    previews validate n st op = (st', rs)
    ∧ world st' = world st
    ∧ (∃ evs, log st' = log st ++ evs ∧ Forall (fun e => is_fs_mutation e = false) evs)
    ∧ length rs = n
    ∧ Forall (fun r => r = ((apply validate st op).1.2, (apply validate st op).2)) rs.
Proof.
  intros Hexec. revert st. induction n as [|n IH]; intros st.
  - exists st, []. repeat split; try done. exists []. by rewrite app_nil_r.
  - cbn [previews].
    destruct (apply_preview st op Hexec) as (st1 & op1 & e1 & Hap & Hw1 & evs1 & Hl1 & Hm1).
    assert (Hsame : ((apply validate st1 op).1.2, (apply validate st1 op).2) = (op1, e1)).
    { destruct st as [w l], st1 as [w1 l1]. cbn [world] in Hw1. subst w1.
      destruct (apply_log_irrelevant w l l1 op Hexec) as [Hop He].
      rewrite Hap in Hop, He. cbn in Hop, He. by rewrite <- Hop, <- He. }
    rewrite Hap.
    destruct (IH st1) as (st2 & rs & Hp & Hw2 & (evs2 & Hl2 & Hm2) & Hlen & Hall).
    rewrite Hp. exists st2, ((op1, e1) :: rs). split; [reflexivity|].
    split; [congruence|]. split.
    { exists (evs1 ++ evs2). rewrite Hl2, Hl1, <- app_assoc. split; [done|].
      by apply Forall_app. }
    split; [cbn; congruence|].
    constructor; [done|].
    rewrite Hsame in Hall. exact Hall.
Qed.

(** The operation never reads the quiet flag outside [apply]: two
    operations that agree on every other field are treated alike. *)
Ltac upto_quiet_subst :=
  match goal with
  | Hq : upto_quiet ?a ?b |- _ =>
    destruct a, b; unfold upto_quiet in Hq; cbn in Hq; simplify_eq
  end.

Lemma upto_quiet_set q op : upto_quiet (set_quiet q op) op.
Proof. by destruct op. Qed.

Lemma upto_quiet_validate a b cs ms :
  upto_quiet a b ->
  upto_quiet (set_conflicts cs (set_matches ms a)) (set_conflicts cs (set_matches ms b)).
Proof. intros Hq. by upto_quiet_subst. Qed.

Lemma sortMatches_upto_quiet a b :
  upto_quiet a b -> upto_quiet (sortMatches a) (sortMatches b).
Proof. intros Hq. by upto_quiet_subst. Qed.

Lemma rename_upto_quiet st a b :
  upto_quiet a b ->
  (rename st a).1 = (rename st b).1 ∧ upto_quiet (rename st a).2 (rename st b).2.
Proof.
  intros Hq. upto_quiet_subst. unfold rename. cbn [matches].
  by destruct (fold_left renameStep _ _).
Qed.

Lemma writeToFile_upto_quiet f st a b :
  upto_quiet a b -> writeToFile f st a = writeToFile f st b.
Proof. intros Hq. by upto_quiet_subst. Qed.

Lemma handleErrors_upto_quiet st a b :
  upto_quiet a b ->
  (handleErrors st a).1.1 = (handleErrors st b).1.1
  ∧ (handleErrors st a).2 = (handleErrors st b).2.
Proof.
  intros Hq.
  set (clean := fun op => set_matches (removeErrors (errors op) (matches op)) op).
  assert (Hc : upto_quiet (clean a) (clean b)) by (subst clean; by upto_quiet_subst).
  assert (Hr : forall s, reportErrors s (clean a) = reportErrors s (clean b)).
  { intros s. revert Hc. generalize (clean a) (clean b). intros a' b' Hc.
    by upto_quiet_subst. }
  assert (Hm : matches (clean a) = matches (clean b)).
  { revert Hc. generalize (clean a) (clean b). intros a' b' Hc. by upto_quiet_subst. }
  unfold handleErrors. fold (clean a) (clean b). rewrite Hr, Hm.
  destruct (0 <? length (matches (clean b)))%nat.
  - rewrite (writeToFile_upto_quiet _ _ _ _ Hc).
    by destruct (writeToFile _ _ (clean b)) as [st1 [e|]].
  - done.
Qed.

Lemma upto_quiet_fields a b :
  upto_quiet a b ->
  matches a = matches b ∧ errors a = errors b ∧ conflicts a = conflicts b
  ∧ fixConflicts a = fixConflicts b ∧ exec a = exec b ∧ includeDir a = includeDir b
  ∧ undoFile a = undoFile b ∧ outputFile a = outputFile b.
Proof. intros Hq. by upto_quiet_subst. Qed.

(** C10: two runs of [apply] that differ only in the quiet flag return
    the same error and leave the same world, for every validator whose
    findings do not depend on the flag. *)
Theorem apply_error_independent_of_quiet st op :
  (∀ w o q, validate w (set_quiet q o) = validate w o) ->
  (apply validate st (set_quiet true op)).2 = (apply validate st (set_quiet false op)).2
  ∧ world (apply validate st (set_quiet true op)).1.1
    = world (apply validate st (set_quiet false op)).1.1.
Proof.
  intros Hv. unfold apply. cbn [matches set_quiet].
  destruct (decide (length (matches op) = 0%nat)) as [Hz|_]; [done|].
  unfold run_validate. rewrite !Hv. destruct (validate (world st) op) as [cs ms].
  assert (Hq : upto_quiet (set_conflicts cs (set_matches ms (set_quiet true op)))
                          (set_conflicts cs (set_matches ms (set_quiet false op)))).
  { by destruct op. }
  revert Hq.
  generalize (set_conflicts cs (set_matches ms (set_quiet true op))).
  generalize (set_conflicts cs (set_matches ms (set_quiet false op))).
  intros b a Hq.
  destruct (upto_quiet_fields a b Hq) as (Hm & He & Hc & Hf & Hx & Hd & Hu & Ho).
  rewrite Hc, Hf, Hx, Hd, Hu.
  destruct ((0 <? size (conflicts b))%nat && negb (fixConflicts b)).
  { by destruct (quiet a), (quiet b). }
  destruct (exec b).
  2:{ by destruct (quiet a), (quiet b). }
  set (a' := if includeDir b || bool_decide (undoFile b ≠ "") then sortMatches a else a).
  set (b' := if includeDir b || bool_decide (undoFile b ≠ "") then sortMatches b else b).
  assert (Hq' : upto_quiet a' b').
  { subst a' b'. destruct (includeDir b || bool_decide (undoFile b ≠ "")); [|done].
    by apply sortMatches_upto_quiet. }
  destruct (rename_upto_quiet (emit EvValidate st) a' b' Hq') as [Hst Hq2].
  destruct (rename (emit EvValidate st) a') as [sa a2].
  destruct (rename (emit EvValidate st) b') as [sb b2].
  cbn [fst snd] in Hst, Hq2. subst sb.
  destruct (upto_quiet_fields a2 b2 Hq2) as (Hm2 & He2 & _ & _ & _ & _ & _ & Ho2).
  rewrite He2, Ho2.
  destruct (0 <? length (errors b2))%nat.
  { destruct (handleErrors_upto_quiet sa a2 b2 Hq2) as [H1 H2]. by rewrite H1, H2. }
  destruct (bool_decide (outputFile b2 ≠ "")); [|done].
  rewrite (writeToFile_upto_quiet _ _ _ _ Hq2).
  by destruct (writeToFile (outputFile b2) sa b2).
Qed.

End ApplyFacts.

(** ** Properties of the executor *)

Section RenameFacts.
Context {W : Type} `{OS W}.

(** One iteration: the candidate is attempted on the world as it is; the
    calls end in exactly one final call, which concludes the candidate, and
    an error is recorded exactly when that call failed. *)
Lemma renameStep_calls st errs ch :
  ∃ st' r evs fin,
    renameStep (st, errs) ch = (st', errs ++ omap failed [(ch, r)])
    ∧ attempted ch (world st) (world st') r
    ∧ log st' = log st ++ evs
    ∧ filter (λ e, is_final e) evs = [fin]
    ∧ concludes ch fin
    ∧ failure fin = r
    ∧ omap failure evs = omap failure [fin].
Proof.
  unfold renameStep, attempted, MkdirAll, Rename. fold (sourcePath ch) (targetPath ch).
  destruct (needsDir ch) eqn:Hdir.
  - destruct (os_MkdirAll _ (world st)) as [w1 [e|]] eqn:Hmk.
    + eexists _, (Some e), [EvMkdirAll _ (Some e)], (EvMkdirAll _ (Some e)).
      split; [reflexivity|]. cbn [world log].
      split; [left; by exists e|].
      split; [reflexivity|]. split; [reflexivity|]. split; [|done].
      right. by exists e.
    + cbn [world log].
      destruct (os_Rename _ _ w1) as [w2 r] eqn:Hrn.
      exists (mkState w2 ((log st ++ [EvMkdirAll
                (filepath_Join (BaseDir ch) (filepath_Dir (Target ch))) None])
                ++ [EvRename (sourcePath ch) (targetPath ch) r])), r,
        [EvMkdirAll (filepath_Join (BaseDir ch) (filepath_Dir (Target ch))) None;
         EvRename (sourcePath ch) (targetPath ch) r],
        (EvRename (sourcePath ch) (targetPath ch) r).
      split.
      { destruct r; cbn; [reflexivity|]. by rewrite app_nil_r. }
      cbn [world log]. split; [right; by exists w1|].
      split; [by rewrite <- app_assoc|]. split; [reflexivity|].
      split; [|done]. left. by exists r.
  - destruct (os_Rename _ _ (world st)) as [w2 r] eqn:Hrn.
    exists (mkState w2 (log st ++ [EvRename (sourcePath ch) (targetPath ch) r])), r,
      [EvRename (sourcePath ch) (targetPath ch) r],
      (EvRename (sourcePath ch) (targetPath ch) r).
    split.
    { destruct r; cbn; [reflexivity|]. by rewrite app_nil_r. }
    cbn [world log]. split; [done|]. split; [reflexivity|]. split; [reflexivity|].
    split; [|done]. left. by exists r.
Qed.

Lemma omap_failed_err (ms : list Change) (rs : list (option oserror)) :
  length ms = length rs ->
  map err (omap failed (zip ms rs)) = omap id rs.
Proof.
  revert rs. induction ms as [|ch ms IH]; intros [|r rs] Hlen; try done.
  cbn in Hlen. cbn [zip zip_with omap]. unfold failed at 1. cbn [fst snd].
  destruct r as [e|]; cbn; rewrite IH by lia; done.
Qed.

Lemma attempts_length (w w' : W) ms rs : attempts w ms w' rs -> length ms = length rs.
Proof. induction 1; cbn; congruence. Qed.

(** The loop: every candidate is attempted, in order, on the world the one
    before it left, whatever happened to the candidates before it. *)
Lemma rename_loop ms : ∀ st errs,
  ∃ st' rs evs,
    fold_left renameStep ms (st, errs) = (st', errs ++ omap failed (zip ms rs))
    ∧ attempts (world st) ms (world st') rs
    ∧ log st' = log st ++ evs
    ∧ Forall2 concludes ms (filter (λ e, is_final e) evs)
    ∧ map failure (filter (λ e, is_final e) evs) = rs
    ∧ omap failure evs = omap id rs.
Proof.
  induction ms as [|ch ms IH]; intros st errs.
  - exists st, [], []. cbn. rewrite !app_nil_r. repeat split; constructor.
  - cbn [fold_left].
    destruct (renameStep_calls st errs ch)
      as (st1 & r & evs1 & fin & Hstep & Hat & Hl1 & Hf1 & Hc1 & Hr1 & Hx1).
    rewrite Hstep.
    destruct (IH st1 (errs ++ omap failed [(ch, r)]))
      as (st2 & rs & evs2 & Hfold & Hats & Hl2 & Hc2 & Hr2 & Hx2).
    exists st2, (r :: rs), (evs1 ++ evs2). rewrite filter_app, Hf1. cbn [app zip zip_with].
    split.
    { rewrite Hfold, <- app_assoc. f_equal. by destruct r. }
    split; [by econstructor|].
    split; [by rewrite Hl2, Hl1, <- app_assoc|].
    split; [by constructor|].
    split; [cbn [map]; by rewrite Hr1, Hr2|].
    rewrite omap_app, Hx1, Hx2. cbn. rewrite Hr1. by destruct r.
Qed.

(** C4: the executor attempts every candidate of the batch, in order, each
    on the world the one before it left and whatever the results before it:
    by [os.Rename], after [os.MkdirAll] when a directory is to be made for
    the target, a failure of which ends the attempt.  The world [rename]
    leaves is the one the last attempt left; the recorded errors are exactly
    the failed attempts, each paired with its candidate, in order; and the
    calls logged are those of the attempts, every failed call among them
    being in the error list. *)
Theorem rename_attempts_every_candidate (st : State W) (op : Operation) :
  ∃ st' rs evs,
    rename st op = (st', set_errors (omap failed (zip (matches op) rs)) op)
    ∧ attempts (world st) (matches op) (world st') rs
    ∧ log st' = log st ++ evs
    ∧ Forall2 concludes (matches op) (filter (λ e, is_final e) evs)
    ∧ map failure (filter (λ e, is_final e) evs) = rs
    ∧ omap failure evs = map err (omap failed (zip (matches op) rs)).
Proof.
  destruct (rename_loop (matches op) st []) as (st' & rs & evs & Hfold & Hat & Hl & Hc & Hr & Hx).
  exists st', rs, evs. unfold rename. rewrite Hfold. cbn [app].
  split; [reflexivity|]. split; [exact Hat|]. split; [exact Hl|]. split; [exact Hc|].
  split; [exact Hr|].
  rewrite Hx. symmetry. apply omap_failed_err. by apply attempts_length in Hat.
Qed.

End RenameFacts.

(** ** Properties of the journal of a partly failed run *)

Section HandleErrorsFacts.
Context {W : Type} `{OS W}.

(** The countdown of [handleErrors] visits the indices below [n] and cuts
    out the elements whose target is [t]; the index is always in range. *)
Lemma removeTarget_prefix t pre : ∀ suf,
  removeTarget t (length pre) (pre ++ suf) = filter (λ m, t ≠ Target m) pre ++ suf.
Proof.
  induction pre as [|m pre IH] using rev_ind; intros suf; [done|].
  rewrite length_app. cbn [length]. rewrite Nat.add_1_r. cbn [removeTarget].
  rewrite <- app_assoc. cbn [app].
  rewrite (list_lookup_middle pre suf m (length pre) eq_refl).
  rewrite filter_app.
  destruct (decide (t = Target m)) as [Heq|Hne].
  - rewrite delete_middle, IH.
    rewrite filter_cons_False by (intros Hc; contradiction).
    by rewrite filter_nil, app_nil_r.
  - rewrite IH. rewrite filter_cons_True by done.
    by rewrite filter_nil, <- app_assoc.
Qed.

Lemma removeTarget_filter t ms :
  removeTarget t (length ms) ms = filter (λ m, t ≠ Target m) ms.
Proof.
  rewrite <- (app_nil_r ms) at 2. rewrite removeTarget_prefix. by rewrite app_nil_r.
Qed.

(** What [handleErrors] keeps: the candidates whose target is the target
    of no failed candidate. *)
Lemma removeErrors_filter errs : ∀ ms,
  removeErrors errs ms = filter (λ m, Target m ∉ map (λ v, Target (entry v)) errs) ms.
Proof.
  unfold removeErrors. induction errs as [|v errs IH]; intros ms.
  - cbn. induction ms as [|m ms IHms]; [done|].
    rewrite filter_cons_True by apply not_elem_of_nil. by rewrite <- IHms.
  - cbn [fold_left map]. rewrite removeTarget_filter, IH.
    rewrite list_filter_filter. apply list_filter_iff. intros m.
    rewrite not_elem_of_cons. split; intros [Ha Hb]; (split; [congruence|done]).
Qed.

(** Every failed candidate leaves the batch. *)
Lemma removeErrors_excludes_failed errs ms v :
  v ∈ errs -> entry v ∉ removeErrors errs ms.
Proof.
  intros Hv. rewrite removeErrors_filter, list_elem_of_filter.
  intros [Hn _]. apply Hn. apply list_elem_of_fmap. by exists v.
Qed.

(** When no two candidates of the batch share a target name, what is kept
    is exactly what did not fail. *)
Lemma removeErrors_exact errs ms :
  NoDup (map Target ms) ->
  Forall (λ v, entry v ∈ ms) errs ->
  removeErrors errs ms = filter (λ m, m ∉ map entry errs) ms.
Proof.
  intros Hnd Herrs. rewrite removeErrors_filter.
  assert (Hinj : ∀ a b, a ∈ ms -> b ∈ ms -> Target a = Target b -> a = b).
  { clear Herrs. induction ms as [|m ms IH]; intros a b Ha Hb Hab.
    { by apply elem_of_nil in Ha. }
    cbn [map] in Hnd. apply NoDup_cons in Hnd as [Hm Hnd].
    apply elem_of_cons in Ha as [->|Ha]; apply elem_of_cons in Hb as [->|Hb].
    - done.
    - destruct Hm. rewrite Hab. apply list_elem_of_fmap. by exists b.
    - destruct Hm. rewrite <- Hab. apply list_elem_of_fmap. by exists a.
    - by apply IH. }
  assert (Hiff : ∀ m, m ∈ ms ->
            (Target m ∉ map (λ v, Target (entry v)) errs <-> m ∉ map entry errs)).
  { intros m Hm. split; intros Hn Hin; apply Hn.
    - apply list_elem_of_fmap in Hin as (v & -> & Hv).
      apply list_elem_of_fmap. by exists v.
    - apply list_elem_of_fmap in Hin as (v & Ht & Hv).
      rewrite Forall_forall in Herrs.
      rewrite (Hinj m (entry v) Hm (Herrs v Hv) Ht).
      apply list_elem_of_fmap. by exists v. }
  clear Hnd Hinj Herrs. induction ms as [|m ms IH]; [done|].
  rewrite !filter_cons.
  rewrite IH by (intros m' Hm'; apply Hiff; by right).
  destruct (Hiff m (list_elem_of_here _ _)) as [H1 H2].
  destruct (decide (Target m ∉ map (λ v, Target (entry v)) errs)) as [Hd|Hd];
    destruct (decide (m ∉ map entry errs)) as [He|He]; try done.
  - destruct (He (H1 Hd)).
  - destruct (Hd (H2 He)).
Qed.

Lemma IndexByte_app_r s1 s2 c :
  strings.IndexByte s2 c ≠ None -> strings.IndexByte (s1 +:+ s2) c ≠ None.
Proof.
  intros Hs2. induction s1 as [|a s1 IH]; [done|].
  change (String a s1 +:+ s2) with (String a (s1 +:+ s2)). cbn [strings.IndexByte].
  destruct (Ascii.eqb a c); [discriminate|].
  destruct (strings.IndexByte (s1 +:+ s2) c); [discriminate|]. by destruct IH.
Qed.

(** The message of an error of the [os] package holds a colon: the slice
    [msg[strings.IndexByte(msg, ':'):]] of [reportErrors] is in range. *)
Lemma Error_has_colon e : strings.IndexByte (Error e) ":" ≠ None.
Proof.
  destruct e; cbn [Error].
  - do 3 apply IndexByte_app_r. discriminate.
  - do 5 apply IndexByte_app_r. discriminate.
Qed.

End HandleErrorsFacts.

(** ** Properties of the ordering policy *)

Section SortFacts.
Context {A : Type}.

Lemma insert_perm (less : A -> A -> bool) x left : sort.insert less x left ≡ₚ x :: left.
Proof.
  induction left as [|y left IH]; [done|]. cbn.
  destruct (less x y); [|done]. rewrite IH. apply Permutation_swap.
Qed.

Lemma insertion_perm (less : A -> A -> bool) l : ∀ left,
  fold_left (λ left x, sort.insert less x left) l left ≡ₚ rev l ++ left.
Proof.
  induction l as [|x l IH]; intros left; [done|].
  cbn [fold_left rev]. rewrite IH, insert_perm, <- app_assoc. done.
Qed.

(** The sort rearranges the slice, whatever the comparison. *)
Lemma SliceStable_perm (less : A -> A -> bool) l : sort.SliceStable less l ≡ₚ l.
Proof.
  unfold sort.SliceStable, sort.insertionSort.
  rewrite <- Permutation_rev, insertion_perm, app_nil_r. symmetry. apply Permutation_rev.
Qed.

Lemma StronglySorted_rev (R : relation A) l :
  StronglySorted (flip R) l -> StronglySorted R (rev l).
Proof.
  induction 1 as [|x l Hs IH Hx]; [constructor|].
  cbn [rev]. apply StronglySorted_app_2; [|done|repeat constructor].
  intros a b Ha Hb. apply list_elem_of_singleton in Hb as ->.
  rewrite Forall_forall in Hx. apply Hx. apply list_elem_of_In. apply in_rev.
  by apply list_elem_of_In.
Qed.

(** A comparison that agrees with a transitive relation [R] on the
    elements that satisfy [P]: the sorted slice is in the order of [R]. *)
Section Ordered.
Variable less : A -> A -> bool.
Variable P : A -> Prop.
Variable R : relation A.
Hypothesis R_trans : ∀ x y z, R x y -> R y z -> R x z.
Hypothesis less_true : ∀ x y, P x -> P y -> less x y = true -> R x y.
Hypothesis less_false : ∀ x y, P x -> P y -> less x y = false -> R y x.

Lemma insert_sorted x left :
  P x -> Forall P left ->
  StronglySorted (flip R) left ->
  StronglySorted (flip R) (sort.insert less x left).
Proof.
  intros Hx HP Hs. induction Hs as [|y left Hs IH Hy]; [repeat constructor|].
  apply Forall_cons in HP as [HPy HP].
  cbn [sort.insert]. destruct (less x y) eqn:Hlt.
  - constructor; [by apply IH|].
    rewrite insert_perm. constructor; [by apply less_true|done].
  - constructor; [by constructor|].
    constructor; [by apply less_false|].
    eapply Forall_impl; [exact Hy|]. cbn. intros z Hz.
    eapply R_trans; [exact Hz|]. by apply less_false.
Qed.

Lemma insertion_sorted l : ∀ left,
  Forall P l -> Forall P left ->
  StronglySorted (flip R) left ->
  StronglySorted (flip R) (fold_left (λ left x, sort.insert less x left) l left).
Proof.
  induction l as [|x l IH]; intros left Hl HP Hs; [done|].
  apply Forall_cons in Hl as [Hx Hl].
  cbn [fold_left]. apply IH; [done| |by apply insert_sorted].
  rewrite insert_perm. by constructor.
Qed.

Lemma SliceStable_sorted l :
  Forall P l -> StronglySorted R (sort.SliceStable less l).
Proof.
  intros Hl. unfold sort.SliceStable, sort.insertionSort. apply StronglySorted_rev.
  apply insertion_sorted; [done|constructor|constructor].
Qed.

End Ordered.

End SortFacts.

(** X16: in undo mode the batch is rearranged so that the base directories
    never get shorter: a candidate with a strictly shorter base directory
    stands before every candidate with a longer one. *)
Lemma sortMatches_undo_order (op : Operation) :
  undoFile op ≠ "" ->
  matches (sortMatches op) ≡ₚ matches op
  ∧ StronglySorted (λ a b, (String.length (BaseDir a) ≤ String.length (BaseDir b))%nat)
                   (matches (sortMatches op)).
Proof.
  intros Hu. unfold sortMatches. destruct op; cbn [matches set_matches undoFile] in *.
  split; [apply SliceStable_perm|].
  apply (SliceStable_sorted _ (λ _, True)).
  - intros x y z. lia.
  - intros x y _ _. unfold sortMatches_less. cbn [undoFile].
    rewrite bool_decide_eq_true_2 by done. intros Hlt%Nat.ltb_lt. lia.
  - intros x y _ _. unfold sortMatches_less. cbn [undoFile].
    rewrite bool_decide_eq_true_2 by done. intros Hlt%Nat.ltb_ge. lia.
  - by apply Forall_forall.
Qed.

(** X17: outside undo mode a batch of directories alone is rearranged so that
    the base directories never get longer: children before parents. *)
Lemma sortMatches_directories_order (op : Operation) :
  undoFile op = "" ->
  Forall (λ m, IsDir m = true) (matches op) ->
  StronglySorted (λ a b, (String.length (BaseDir b) ≤ String.length (BaseDir a))%nat)
                 (matches (sortMatches op)).
Proof.
  intros Hu Hdirs. unfold sortMatches. destruct op; cbn [matches set_matches undoFile] in *.
  apply (SliceStable_sorted _ (λ m, IsDir m = true)); [| | |exact Hdirs].
  - intros x y z. lia.
  - intros x y Hx _. unfold sortMatches_less. cbn [undoFile].
    rewrite bool_decide_eq_false_2 by (intros Hc; by apply Hc).
    rewrite Hx. cbn [negb]. intros Hlt%Nat.ltb_lt. lia.
  - intros x y Hx _. unfold sortMatches_less. cbn [undoFile].
    rewrite bool_decide_eq_false_2 by (intros Hc; by apply Hc).
    rewrite Hx. cbn [negb]. intros Hlt%Nat.ltb_ge. lia.
Qed.

(** C6: a file whose base directory is "a" and a directory whose base
    directory is "a/b/c", sorted outside undo mode: the directory comes
    out before the file. *)
Theorem sortMatches_directory_before_file :
  matches (sortMatches Sample.file_then_dir) = [Sample.dir_abc; Sample.file_a].
Proof. reflexivity. Qed.

(** C5: of three candidates the first fails and the other two are
    renamed; the second shares its target name with the first, in another
    directory, and the recovery journal holds the third alone. *)
Theorem recovery_journal_misses_renamed_candidate :
  let r := apply detectConflicts (mkState Sample.three_files []) Sample.three in
  r.2 = Some (errRecovery ".f2_2021-03-5T14-07-09PM.json")
  ∧ map entry (errors r.1.2) = [Sample.c1]
  ∧ files (world r.1.1) !! "d2/a.txt" = None
  ∧ files (world r.1.1) !! "d2/b.txt" = Some (Raw "2")
  ∧ files (world r.1.1) !! ".f2_2021-03-5T14-07-09PM.json"
    = Some (Journal (mkMapFile "2021-03-05T14:07:09Z" [Sample.c3])).
Proof. vm_compute. repeat split. Qed.

(** The recovery file name, element by element: the day is written as it
    is, without padding. *)
Lemma recoveryFile_elements (t : time.Time) :
  recoveryFile t
  = ".f2_" +:+ (time.appendInt (time.year t) 4 +:+ "-" +:+ time.appendInt (time.month t) 2
                +:+ "-" +:+ time.appendInt (time.day t) 0 +:+ "T"
                +:+ time.appendInt (time.hour t) 2 +:+ "-" +:+ time.appendInt (time.minute t) 2
                +:+ "-" +:+ time.appendInt (time.second t) 2
                +:+ (if (12 <=? time.hour t)%nat then "PM" else "AM") +:+ "") +:+ ".json".
Proof. reflexivity. Qed.

(** C8: at 14:07:09 on 5 March 2021 the recovery file is named with the
    day as the single digit 5. *)
Theorem recoveryFile_day_not_padded :
  recoveryFile Sample.t0 = ".f2_2021-03-5T14-07-09PM.json".
Proof. reflexivity. Qed.

(** ** Properties of [undo] *)

Section UndoFacts.
Context {W : Type} `{OS W}.
Variable validate : W -> Operation -> gmap conflict (list Conflict) * list Change.

(** An undo whose journal is read and decoded hands the reversed batch to
    [apply]; without a pre-sort (execute mode, or no sort key) the batch is
    the journal's, entry by entry. *)
Lemma undo_is_apply_of_swapped st op file mf :
  os_ReadFile (undoFile op) (world st) = inl file ->
  json_Unmarshal file = inl mf ->
  exec op = true ∨ sort op = "" ->
  undo validate st op
  = Some (apply validate (emit (EvReadFile (undoFile op)) st)
                (set_matches (map swap (Operations mf)) op)).
Proof.
  intros Hread Hjson Hmode. unfold undo, ReadFile. rewrite Hread, Hjson.
  replace (negb (exec (set_matches (map swap (Operations mf)) op))
           && bool_decide (sort (set_matches (map swap (Operations mf)) op) ≠ ""))
    with false; [done|].
  destruct op; cbn in *. destruct Hmode as [->| ->]; [done|].
  by rewrite andb_false_r.
Qed.

End UndoFacts.

(** ** Round trip on the filesystem in memory *)

Section MemFacts.

Lemma needsDir_plain (m : Change) :
  strings.Contains (Target m) "/" = false -> needsDir m = false.
Proof.
  intros Hm. unfold needsDir. rewrite Hm. cbn [orb GOOS MemOS].
  rewrite bool_decide_eq_false_2 by discriminate. apply andb_false_r.
Qed.

(** What is at a path depends on the entry of the path alone. *)
Lemma node_frame (w w' : MemFS) (p : string) :
  files w' !! p = files w !! p -> node p w' = node p w.
Proof. intros Hp. unfold node. by rewrite Hp. Qed.

Lemma node_lookup (p : string) (w : MemFS) :
  isRoot p = false -> nameOK p = true -> node p w = files w !! p.
Proof. intros Hr Hok. unfold node. by rewrite Hr, Hok. Qed.

Lemma not_folder_lookup (p : string) (w : MemFS) :
  nameOK p = true -> node p w ≠ Some Folder ->
  isRoot p = false ∧ files w !! p ≠ Some Folder.
Proof.
  intros Hok Hn. unfold node in Hn. rewrite Hok in Hn. by destruct (isRoot p).
Qed.

Lemma isFile_files (p : string) (w : MemFS) :
  isFile p w ->
  ∃ c, files w !! p = Some c ∧ c ≠ Folder ∧ isRoot p = false ∧ nameOK p = true.
Proof.
  intros (c & Hc & Hfile). unfold node in Hc.
  destruct (isRoot p); [by simplify_eq|]. destruct (nameOK p); [|done]. by exists c.
Qed.

Lemma free_files (p : string) (w : MemFS) :
  free p w -> files w !! p = None ∧ isRoot p = false ∧ nameOK p = true.
Proof.
  intros [Hok Hn]. unfold node in Hn. rewrite Hok in Hn. by destruct (isRoot p).
Qed.

(** A world that keeps the folders of another keeps its directories. *)
Lemma isFolder_keeps (w w' : MemFS) (d : string) :
  (∀ p, files w !! p = Some Folder -> files w' !! p = Some Folder) ->
  isFolder d w = true -> isFolder d w' = true.
Proof.
  unfold isFolder, node. intros Hk Hd. destruct (isRoot d); [done|].
  destruct (nameOK d); [|done].
  destruct (files w !! d) as [[]|] eqn:E; try done. by rewrite (Hk d E).
Qed.

(** The executor's step on a candidate that is renamed in place, where
    nothing is denied: the content moves from the source path to the target
    path. *)
Lemma mem_renameStep (st : State MemFS) errs m :
  denied (world st) = [] ->
  inPlace (world st) m ->
  ∃ st' c,
    files (world st) !! sourcePath m = Some c
    ∧ renameStep (st, errs) m = (st', errs)
    ∧ denied (world st') = []
    ∧ files (world st') = <[targetPath m := c]> (delete (sourcePath m) (files (world st))).
Proof.
  intros Hden (Hsrc & Hfree & Hdir & Hplain).
  assert (Hperm : ∀ p, permitted p (world st) = true).
  { intros p. unfold permitted. rewrite Hden. apply bool_decide_eq_true_2, not_elem_of_nil. }
  pose proof Hsrc as (c & Hnode & Hc).
  destruct (isFile_files _ _ Hsrc) as (c' & Hlook & _ & Hroot & _).
  destruct Hfree as [Hok Hnone].
  unfold renameStep. rewrite (needsDir_plain m Hplain). unfold Rename.
  cbn [os_Rename MemOS].
  unfold sourcePath, targetPath, originalPath, currentPath in *.
  cbn [filepath_Join filepath_Dir MemOS] in *.
  unfold mem_Rename. rewrite !Hperm, Hnode, Hroot, Hok, Hnone, Hdir. cbn [andb negb].
  assert (c' = c) as ->.
  { unfold node in Hnode. rewrite Hroot in Hnode.
    destruct (nameOK (filepath.Join (BaseDir m) (Source m))); congruence. }
  exists (mkState (set_files (<[filepath.Join (BaseDir m) (Target m) := c]>
                                (delete (filepath.Join (BaseDir m) (Source m))
                                        (files (world st)))) (world st))
                  (log st ++ [EvRename (filepath.Join (BaseDir m) (Source m))
                                       (filepath.Join (BaseDir m) (Target m)) None])), c.
  split; [done|]. split; [by destruct c|]. by cbn.
Qed.

(** The executor's loop over candidates that are renamed in place and
    whose paths are pairwise distinct: nothing fails, every content moves to
    its target path, and no other path changes. *)
Lemma mem_rename_loop (L : list Change) : ∀ (st : State MemFS) errs,
  denied (world st) = [] ->
  NoDup (map sourcePath L ++ map targetPath L) ->
  Forall (inPlace (world st)) L ->
  ∃ st',
    fold_left renameStep L (st, errs) = (st', errs)
    ∧ denied (world st') = []
    ∧ Forall (λ m, files (world st') !! targetPath m = files (world st) !! sourcePath m
                   ∧ files (world st') !! sourcePath m = None) L
    ∧ ∀ p, p ∉ map sourcePath L -> p ∉ map targetPath L ->
           files (world st') !! p = files (world st) !! p.
Proof.
  induction L as [|m L IH]; intros st errs Hden Hnd Hall.
  { exists st. cbn. repeat split; try done. }
  cbn [map app] in Hnd.
  apply NoDup_cons in Hnd as [Hs Hnd].
  apply NoDup_app in Hnd as (HndS & Hdisj & HndT).
  apply NoDup_cons in HndT as [Ht HndT].
  rewrite elem_of_app, elem_of_cons in Hs.
  assert (Hst : sourcePath m ≠ targetPath m) by (intros Heq; apply Hs; right; by left).
  assert (HsS : sourcePath m ∉ map sourcePath L) by (intros Hin; apply Hs; by left).
  assert (HsT : sourcePath m ∉ map targetPath L) by (intros Hin; apply Hs; right; by right).
  assert (HtS : targetPath m ∉ map sourcePath L).
  { intros Hin. apply (Hdisj _ Hin). by left. }
  apply Forall_cons in Hall as [Hm Hall].
  destruct (mem_renameStep st errs m Hden Hm) as (st1 & c & Hc & Hstep & Hden1 & Hfiles1).
  destruct Hm as (Hsrc & Hfree & _).
  destruct (isFile_files _ _ Hsrc) as (c' & Hc' & Hfile & _).
  apply free_files in Hfree as (Hfree & _).
  change (originalPath m) with (sourcePath m) in Hc'.
  change (currentPath m) with (targetPath m) in Hfree.
  assert (c' = c) as -> by congruence. clear Hc'.
  assert (Hlook : ∀ p, p ≠ sourcePath m -> p ≠ targetPath m ->
                       files (world st1) !! p = files (world st) !! p).
  { intros p Hp1 Hp2. rewrite Hfiles1, lookup_insert_ne, lookup_delete_ne by done. done. }
  assert (Hkeeps : ∀ p, files (world st) !! p = Some Folder ->
                        files (world st1) !! p = Some Folder).
  { intros p Hp. rewrite Hlook; [done| |]; intros ->; congruence. }
  destruct (IH st1 errs Hden1) as (st2 & Hfold & Hden2 & Hmoved & Hframe).
  - apply NoDup_app. split; [done|]. split; [|done].
    intros p Hp1 Hp2. apply (Hdisj p Hp1). by right.
  - rewrite Forall_forall in Hall |- *. intros m' Hm'.
    destruct (Hall m' Hm') as ((c' & Hc' & Hfile') & (Hok' & Hfree') & Hdir' & Hplain').
    assert (sourcePath m' ∈ map sourcePath L) by (apply list_elem_of_fmap; by exists m').
    assert (targetPath m' ∈ map targetPath L) by (apply list_elem_of_fmap; by exists m').
    split; [|split; [|split; [|done]]].
    + exists c'. split; [|done]. rewrite <- Hc'. apply node_frame.
      change (originalPath m') with (sourcePath m').
      apply Hlook; intros Heq.
      * apply HsS. by rewrite <- Heq.
      * apply HtS. by rewrite <- Heq.
    + split; [done|]. rewrite <- Hfree'. apply node_frame.
      change (currentPath m') with (targetPath m').
      apply Hlook; intros Heq.
      * apply HsT. by rewrite <- Heq.
      * apply Ht. by rewrite <- Heq.
    + by apply (isFolder_keeps (world st)).
  - exists st2. cbn [fold_left]. rewrite Hstep. split; [exact Hfold|].
    split; [exact Hden2|]. split.
    + constructor.
      * rewrite !Hframe by done. rewrite Hfiles1.
        rewrite lookup_insert_eq, lookup_insert_ne, lookup_delete_eq by done. done.
      * rewrite Forall_forall in Hmoved, Hall |- *. intros m' Hm'.
        destruct (Hmoved m' Hm') as [Hmv Hgone]. split; [|done].
        assert (sourcePath m' ∈ map sourcePath L) by (apply list_elem_of_fmap; by exists m').
        rewrite Hmv. apply Hlook; intros Heq.
        -- apply HsS. by rewrite <- Heq.
        -- apply HtS. by rewrite <- Heq.
    + intros p Hp1 Hp2. cbn [map] in Hp1, Hp2.
      apply not_elem_of_cons in Hp1 as [? ?]. apply not_elem_of_cons in Hp2 as [? ?].
      rewrite Hframe by done. by apply Hlook.
Qed.

End MemFacts.

Section MemApply.
Variable validate : MemFS -> Operation -> gmap conflict (list Conflict) * list Change.

Lemma perm_paths (f : Change -> string) (L L' : list Change) :
  L ≡ₚ L' -> map f L ≡ₚ map f L'.
Proof. intros HP. by apply fmap_Permutation. Qed.

(** An executed batch that the validator passes as it is, whose candidates
    are renamed in place and whose paths are pairwise distinct, where
    nothing is denied: [apply] returns nil, every content has moved from its
    source path to its target path, and every other path but the output
    file is as it was.  The journal, if one is asked for, holds the batch
    in the order it was executed. *)
Lemma mem_apply_moves (st : State MemFS) (op : Operation) :
  exec op = true ->
  denied (world st) = [] ->
  validate (world st) op = (∅, matches op) ->
  NoDup (map sourcePath (matches op) ++ map targetPath (matches op)) ->
  Forall (inPlace (world st)) (matches op) ->
  (outputFile op ≠ "" ->
   (outputFile op ∉ map sourcePath (matches op) ++ map targetPath (matches op))
   ∧ writable (outputFile op) (world st)) ->
  ∃ st' op',
    apply validate st op = (st', op', None)
    ∧ denied (world st') = []
    ∧ matches op' ≡ₚ matches op
    ∧ Forall (λ m, files (world st') !! targetPath m = files (world st) !! sourcePath m
                   ∧ files (world st') !! sourcePath m = None) (matches op)
    ∧ (∀ p, p ∉ map sourcePath (matches op) -> p ∉ map targetPath (matches op) ->
            (outputFile op ≠ "" -> p ≠ outputFile op) ->
            files (world st') !! p = files (world st) !! p)
    ∧ (outputFile op ≠ "" -> matches op ≠ [] ->
       ∃ date, files (world st') !! outputFile op
               = Some (Journal (json.roundTrip (mkMapFile date (matches op'))))).
Proof.
  intros Hexec Hden Hval Hnd Hall Hout. unfold apply.
  destruct (decide (length (matches op) = 0%nat)) as [Hz|Hnz].
  { apply length_zero_iff_nil in Hz. rewrite Hz in *.
    eexists _, op. split; [reflexivity|].
    assert (Hw : world (if quiet op then st
                        else emit (EvPrintln "Failed to match any files") st) = world st)
      by (by destruct (quiet op)).
    rewrite Hw, Hz. repeat split; try done. }
  unfold run_validate. rewrite Hval.
  set (op1 := set_conflicts ∅ (set_matches (matches op) op)).
  assert (Hop1 : op1 = set_conflicts ∅ op) by (subst op1; by destruct op).
  replace (conflicts op1) with (∅ : gmap conflict (list Conflict))
    by (by rewrite Hop1; destruct op).
  replace (exec op1) with (exec op) by (by rewrite Hop1; destruct op).
  replace (includeDir op1) with (includeDir op) by (by rewrite Hop1; destruct op).
  replace (undoFile op1) with (undoFile op) by (by rewrite Hop1; destruct op).
  rewrite map_size_empty, Nat.ltb_irrefl, Hexec. cbn [andb].
  set (op2 := if includeDir op || bool_decide (undoFile op ≠ "") then sortMatches op1 else op1).
  assert (Hperm : matches op2 ≡ₚ matches op).
  { subst op2. destruct (includeDir op || bool_decide (undoFile op ≠ "")).
    - unfold sortMatches. rewrite Hop1. destruct op; cbn. apply SliceStable_perm.
    - rewrite Hop1. by destruct op. }
  assert (Hout2 : outputFile op2 = outputFile op).
  { subst op2. rewrite Hop1.
    destruct (includeDir op || bool_decide (undoFile op ≠ "")); by destruct op. }
  unfold rename.
  destruct (mem_rename_loop (matches op2) (emit EvValidate st) [])
    as (st2 & Hfold & Hden2 & Hmoved & Hframe).
  { exact Hden. }
  { by rewrite (perm_paths sourcePath _ _ Hperm), (perm_paths targetPath _ _ Hperm). }
  { by rewrite Hperm. }
  rewrite Hfold.
  replace (errors (set_errors [] op2)) with (@nil renameError) by (by destruct op2).
  cbn [length]. rewrite Nat.ltb_irrefl.
  replace (outputFile (set_errors [] op2)) with (outputFile op)
    by (rewrite <- Hout2; by destruct op2).
  assert (Hmoved' : Forall (λ m, files (world st2) !! targetPath m = files (world st) !! sourcePath m
                                 ∧ files (world st2) !! sourcePath m = None) (matches op)).
  { by rewrite <- Hperm. }
  assert (Hframe' : ∀ p, p ∉ map sourcePath (matches op) -> p ∉ map targetPath (matches op) ->
                         files (world st2) !! p = files (world st) !! p).
  { intros p Hp1 Hp2. apply Hframe.
    - by rewrite (perm_paths sourcePath _ _ Hperm).
    - by rewrite (perm_paths targetPath _ _ Hperm). }
  assert (Hfolders : ∀ p, files (world st) !! p = Some Folder ->
                          files (world st2) !! p = Some Folder).
  { intros p Hp. rewrite Hframe'; [done| |]; intros Hin;
      apply list_elem_of_fmap in Hin as (m & -> & Hm);
      rewrite Forall_forall in Hall;
      destruct (Hall m Hm) as (Hsrc & Hfree & _);
      destruct (isFile_files _ _ Hsrc) as (c & Hc & Hfile & _);
      apply free_files in Hfree as (Hfree & _).
    - change (originalPath m) with (sourcePath m) in Hc. congruence.
    - change (currentPath m) with (targetPath m) in Hfree. congruence. }
  destruct (decide (outputFile op = "")) as [Hno|Hyes].
  - rewrite bool_decide_eq_false_2 by (intros Hc; by apply Hc).
    exists st2, (set_errors [] op2). split; [reflexivity|]. split; [done|].
    split; [by destruct op2|]. split; [exact Hmoved'|]. split; [|done].
    intros p Hp1 Hp2 _. by apply Hframe'.
  - rewrite bool_decide_eq_true_2 by done.
    destruct (Hout Hyes) as (Hjout & Hjok & Hnofolder & Hjdir).
    rewrite elem_of_app in Hjout.
    assert (Hj2 : node (outputFile op) (world st2) = node (outputFile op) (world st)).
    { apply node_frame, Hframe'; intros Hin; apply Hjout; auto. }
    unfold writeToFile, Create, Write, Close.
    cbn [os_Create file_Write file_Close MemOS json_MarshalIndent time_Now].
    unfold mem_Create, permitted. rewrite Hden2, Hjok.
    rewrite bool_decide_eq_true_2 by apply not_elem_of_nil.
    rewrite (isFolder_keeps (world st) (world st2) _ Hfolders Hjdir).
    assert (Hcreate : match node (outputFile op) (world st2) with
                      | Some Folder =>
                        (world st2, Some (PathError "open" (outputFile op) "is a directory"))
                      | _ => (set_files (<[outputFile op := Raw ""]> (files (world st2)))
                                        (world st2), None)
                      end
                      = (set_files (<[outputFile op := Raw ""]> (files (world st2)))
                                   (world st2), None)).
    { rewrite Hj2. destruct (node (outputFile op) (world st)) as [[]|]; done. }
    rewrite Hcreate.
    cbn [world log set_files files denied clock mem_Write fmap option_fmap option_map].
    eexists _, (set_errors [] op2). split; [reflexivity|].
    cbn [world files denied set_files].
    split; [done|]. split; [by destruct op2|].
    assert (Hlook : ∀ p, p ≠ outputFile op ->
              (<[outputFile op := mem_Marshal
                   (mkMapFile (time.Format (clock (world st2)) time.RFC3339)
                              (matches (set_errors [] op2)))]>
                 (<[outputFile op := Raw ""]> (files (world st2)))) !! p
              = files (world st2) !! p).
    { intros p Hp. by rewrite !lookup_insert_ne. }
    split; [|split].
    + rewrite Forall_forall in Hmoved' |- *. intros m Hm.
      destruct (Hmoved' m Hm) as [H1 H2].
      assert (sourcePath m ∈ map sourcePath (matches op))
        by (apply list_elem_of_fmap; by exists m).
      assert (targetPath m ∈ map targetPath (matches op))
        by (apply list_elem_of_fmap; by exists m).
      rewrite !Hlook; [done| |]; intros Heq; apply Hjout; rewrite <- Heq; auto.
    + intros p Hp1 Hp2 Hp3. rewrite Hlook by auto. by apply Hframe'.
    + intros _ _. eexists. by rewrite lookup_insert_eq.
Qed.

End MemApply.

Section MemUndo.
Variable validate : MemFS -> Operation -> gmap conflict (list Conflict) * list Change.

Lemma sourcePath_swap ms : map sourcePath (map swap ms) = map currentPath ms.
Proof. rewrite <- list_fmap_compose. done. Qed.

Lemma targetPath_swap ms : map targetPath (map swap ms) = map originalPath ms.
Proof. rewrite <- list_fmap_compose. done. Qed.

(** The undo of a journal whose entries can be renamed back in place, with
    all paths pairwise distinct, where the validator passes the reversed
    batch as it is: every entry is back under its original path with the
    content it had, its renamed path is gone, and no other path but the
    output file has changed. *)
Lemma mem_undo_moves (w : MemFS) (lg : list Event) (op : Operation) (mf : mapFile) :
  exec op = true ->
  denied w = [] ->
  node (undoFile op) w = Some (Journal mf) ->
  validate w (set_matches (map swap (Operations mf)) op) = (∅, map swap (Operations mf)) ->
  NoDup (map currentPath (Operations mf) ++ map originalPath (Operations mf)) ->
  Forall (λ m, inPlace w (swap m)) (Operations mf) ->
  (outputFile op ≠ "" ->
   (outputFile op ∉ map currentPath (Operations mf) ++ map originalPath (Operations mf))
   ∧ writable (outputFile op) w) ->
  ∃ st' op',
    undo validate (mkState w lg) op = Some (st', op', None)
    ∧ matches op' ≡ₚ map swap (Operations mf)
    ∧ Forall (λ m, files (world st') !! originalPath m = files w !! currentPath m
                   ∧ files (world st') !! currentPath m = None) (Operations mf)
    ∧ ∀ p, p ∉ map currentPath (Operations mf) -> p ∉ map originalPath (Operations mf) ->
           (outputFile op ≠ "" -> p ≠ outputFile op) ->
           files (world st') !! p = files w !! p.
Proof.
  intros Hexec Hden Hjournal Hval Hnd Hall Hout.
  rewrite (undo_is_apply_of_swapped validate (mkState w lg) op
             (Journal mf : @Bytes _ MemOS) mf).
  2:{ cbn [os_ReadFile MemOS world]. unfold mem_ReadFile. by rewrite Hjournal. }
  2:{ done. }
  2:{ by left. }
  set (rev_op := set_matches (map swap (Operations mf)) op).
  assert (Hm : matches rev_op = map swap (Operations mf)) by (by destruct op).
  assert (Ho : outputFile rev_op = outputFile op) by (by destruct op).
  destruct (mem_apply_moves validate (emit (EvReadFile (undoFile op)) (mkState w lg)) rev_op)
    as (st' & op' & Hap & _ & Hperm & Hmoved & Hframe & _).
  - by destruct op.
  - exact Hden.
  - by rewrite Hm.
  - by rewrite Hm, sourcePath_swap, targetPath_swap.
  - rewrite Hm. apply Forall_fmap. exact Hall.
  - by rewrite Hm, Ho, sourcePath_swap, targetPath_swap.
  - exists st', op'. split; [by rewrite Hap|]. split; [by rewrite <- Hm|].
    rewrite Hm, Ho, sourcePath_swap, targetPath_swap in *. split; [|exact Hframe].
    apply Forall_fmap in Hmoved. exact Hmoved.
Qed.

(** X18: the round trip of a batch of regular files that are renamed in
    place, under names that are well-formed UTF-8 and hold no slash, with
    pairwise distinct paths, where the validator passes the batch and, on
    the world the run leaves, the reversed batch of its journal: the batch
    is executed with its journal written to the output file, and the undo
    of that journal puts every path but the journal's back as it was. *)
Lemma apply_then_undo_restores (w : MemFS) (lg : list Event) (op uop : Operation) :
  exec op = true ->
  exec uop = true ->
  outputFile op ≠ "" ->
  undoFile uop = outputFile op ->
  outputFile uop = "" ->
  matches op ≠ [] ->
  denied w = [] ->
  validate w op = (∅, matches op) ->
  (let r := apply validate (mkState w lg) op in
   validate (world r.1.1) (set_matches (map swap (matches r.1.2)) uop)
   = (∅, map swap (matches r.1.2))) ->
  NoDup (map sourcePath (matches op) ++ map targetPath (matches op)) ->
  Forall (λ m, inPlace w m ∧ wellFormed m
               ∧ strings.Contains (Source m) "/" = false
               ∧ isFolder (filepath.Dir (originalPath m)) w = true) (matches op) ->
  outputFile op ∉ map sourcePath (matches op) ++ map targetPath (matches op) ->
  writable (outputFile op) w ->
  ∃ st1 op1 st2 op2,
    apply validate (mkState w lg) op = (st1, op1, None)
    ∧ undo validate st1 uop = Some (st2, op2, None)
    ∧ ∀ p, p ≠ outputFile op -> files (world st2) !! p = files w !! p.
Proof.
  intros Hexec Huexec Hout Hufile Huout Hne Hden Hval Hvalrev Hnd Hall Hjout Hjw.
  assert (Hin' : Forall (inPlace w) (matches op)).
  { eapply Forall_impl; [exact Hall|]. by intros m [Hm _]. }
  destruct (mem_apply_moves validate (mkState w lg) op Hexec Hden Hval Hnd Hin'
              (λ _, conj Hjout Hjw))
    as (st1 & op1 & Hap & Hden1 & Hperm1 & Hmoved1 & Hframe1 & Hj).
  destruct (Hj Hout Hne) as [date Hjournal]. clear Hj.
  cbv zeta in Hvalrev. rewrite Hap in Hvalrev. cbn [fst snd] in Hvalrev.
  cbn [world] in *. destruct st1 as [w1 lg1]. cbn [world] in *.
  destruct Hjw as (Hjok & Hjnode & Hjdir).
  destruct (not_folder_lookup _ _ Hjok Hjnode) as [Hjroot Hjfile].
  assert (Hin : ∀ m, m ∈ matches op1 <-> m ∈ matches op) by (intros m; by rewrite Hperm1).
  rewrite Forall_forall in Hmoved1, Hall.
  assert (Hfacts : ∀ m, m ∈ matches op ->
            ∃ c, files w !! sourcePath m = Some c ∧ c ≠ Folder
                 ∧ isRoot (sourcePath m) = false ∧ nameOK (sourcePath m) = true
                 ∧ files w !! targetPath m = None
                 ∧ isRoot (targetPath m) = false ∧ nameOK (targetPath m) = true).
  { intros m Hm. destruct (Hall m Hm) as ((Hsrc & Hfree & _) & _).
    destruct (isFile_files _ _ Hsrc) as (c & Hc & Hfile & Hr & Hok).
    apply free_files in Hfree as (Hfree & Hr' & Hok'). by exists c. }
  assert (Hwf : map json.coerceChange (matches op1) = matches op1).
  { rewrite <- (list_fmap_id (matches op1)) at 2. apply list_fmap_ext.
    intros i m Hm. apply list_elem_of_lookup_2, Hin, Hall in Hm. by destruct Hm as (_ & Hm & _). }
  assert (Hfolders : ∀ p, files w !! p = Some Folder -> files w1 !! p = Some Folder).
  { intros p Hp. rewrite Hframe1; [done| | |].
    - intros Hc. apply list_elem_of_fmap in Hc as (m & -> & Hm).
      destruct (Hfacts m Hm) as (c & Hc & Hfile & _). congruence.
    - intros Hc. apply list_elem_of_fmap in Hc as (m & -> & Hm).
      destruct (Hfacts m Hm) as (c & _ & _ & _ & _ & Hfree & _). congruence.
    - intros _ ->. congruence. }
  destruct (mem_undo_moves w1 lg1 uop (json.roundTrip (mkMapFile date (matches op1))))
    as (st2 & op2 & Hun & _ & Hmoved2 & Hframe2).
  - exact Huexec.
  - exact Hden1.
  - rewrite Hufile. by rewrite node_lookup.
  - cbn [json.roundTrip Operations]. by rewrite Hwf.
  - cbn [json.roundTrip Operations]. rewrite Hwf.
    change (map currentPath (matches op1)) with (map targetPath (matches op1)).
    change (map originalPath (matches op1)) with (map sourcePath (matches op1)).
    rewrite (perm_paths sourcePath _ _ Hperm1), (perm_paths targetPath _ _ Hperm1).
    rewrite (Permutation_app_comm (map targetPath (matches op))). exact Hnd.
  - cbn [json.roundTrip Operations]. rewrite Hwf.
    rewrite Forall_forall. intros m Hm. apply Hin in Hm.
    destruct (Hmoved1 m Hm) as [Ht Hs].
    destruct (Hfacts m Hm) as (c & Hc & Hfile & Hsr & Hsok & Hfree & Htr & Htok).
    destruct (Hall m Hm) as (_ & _ & Hplain & Hdir).
    split; [|split; [|split]].
    + exists c. split; [|done].
      change (originalPath (swap m)) with (targetPath m).
      rewrite node_lookup by done. by rewrite Ht.
    + split; [exact Hsok|].
      change (currentPath (swap m)) with (sourcePath m). by rewrite node_lookup.
    + by apply (isFolder_keeps w).
    + exact Hplain.
  - intros Hc. by rewrite Huout in Hc.
  - exists (mkState w1 lg1), op1, st2, op2. split; [exact Hap|]. split; [exact Hun|].
    cbn [json.roundTrip Operations] in *. rewrite Hwf in *.
    rewrite Forall_forall in Hmoved2.
    intros p Hp.
    destruct (decide (p ∈ map sourcePath (matches op))) as [Hsrc|Hnsrc].
    { apply list_elem_of_fmap in Hsrc as (m & -> & Hm).
      destruct (Hmoved2 m (proj2 (Hin m) Hm)) as [Hback _].
      destruct (Hmoved1 m Hm) as [Ht _].
      change (originalPath m) with (sourcePath m) in Hback.
      change (currentPath m) with (targetPath m) in Hback.
      by rewrite Hback, Ht. }
    destruct (decide (p ∈ map targetPath (matches op))) as [Htgt|Hntgt].
    { apply list_elem_of_fmap in Htgt as (m & -> & Hm).
      destruct (Hmoved2 m (proj2 (Hin m) Hm)) as [_ Hgone].
      destruct (Hfacts m Hm) as (c & _ & _ & _ & _ & Hfree & _).
      change (currentPath m) with (targetPath m) in Hgone.
      by rewrite Hgone, Hfree. }
    rewrite Hframe2.
    + apply Hframe1; done.
    + change (map currentPath (matches op1)) with (map targetPath (matches op1)).
      by rewrite (perm_paths targetPath _ _ Hperm1).
    + change (map originalPath (matches op1)) with (map sourcePath (matches op1)).
      by rewrite (perm_paths sourcePath _ _ Hperm1).
    + intros Hc. by rewrite Huout in Hc.
Qed.

End MemUndo.

(** ** Runs on the filesystem in memory *)

(** C2: the round trip fails on a chain.  "b" becomes "c" and "a" becomes
    "b"; both renames succeed and the journal is written.  The undo replays
    the journal in its own order, "c" back to "b" first, which overwrites
    the file that came from "a"; it returns nil with no error recorded, and
    "a" ends up with the content "b" had, while "b" is gone: the content of
    "a" is lost. *)
Lemma undo_of_chain_loses_a_file :
  let fwd := apply detectConflicts (mkState Sample.two_files []) Sample.chain in
  (files Sample.two_files !! "a", files Sample.two_files !! "b")
  = (Some (Raw "A"), Some (Raw "B"))
  ∧ fwd.2 = None
  ∧ errors fwd.1.2 = []
  ∧ (files (world fwd.1.1) !! "b", files (world fwd.1.1) !! "c")
    = (Some (Raw "A"), Some (Raw "B"))
  ∧ files (world fwd.1.1) !! "undo.json"
    = Some (Journal (mkMapFile "2021-03-05T14:07:09Z"
                               [mkChange "" "b" "c" false; mkChange "" "a" "b" false]))
  ∧ (undo detectConflicts (mkState (world fwd.1.1) []) Sample.undo_op
       ≫= λ r, Some (r.2, errors r.1.2,
                      files (world r.1.1) !! "a", files (world r.1.1) !! "b",
                      files (world r.1.1) !! "c"))
    = Some (None, [], Some (Raw "B"), None, None).
Proof. vm_compute. repeat split. Qed.

(** C3, as the spec states it, fails where the original name is taken
    again: the validator reports the conflict, the undo ends in the
    blocking error and nothing is renamed; with a validator that finds
    nothing, the same undo renames "b" back to "a". *)
Lemma undo_blocked_by_validator :
  let st := mkState Sample.renamed_then_recreated [] in
  (undo detectConflicts st Sample.undo_op ≫= λ r, Some (r.2, log r.1.1))
  = Some (Some errConflictDetected,
          [EvReadFile "undo.json"; EvValidate;
           EvReportConflicts {[ targetExists := [mkConflict ["b"] "a"] ]}])
  ∧ (undo acceptAll st Sample.undo_op ≫= λ r, Some (r.2, log r.1.1))
    = Some (None, [EvReadFile "undo.json"; EvValidate; EvRename "b" "a" None]).
Proof. vm_compute. repeat split. Qed.

(** The statements with hypotheses, at the sample inputs. *)

(** "a" is to become "b", which exists: the validator reports the
    conflict and [apply] is blocked. *)
Lemma apply_conflict_blocks_witness :
  (matches Sample.clash ≠ []
   ∧ fixConflicts Sample.clash = false
   ∧ (detectConflicts Sample.two_files Sample.clash).1 ≠ ∅)
  ∧ ∃ st' op',
      apply detectConflicts (mkState Sample.two_files []) Sample.clash
      = (st', op', Some errConflictDetected)
      ∧ world st' = Sample.two_files
      ∧ ∃ evs, log st' = [] ++ evs ∧ Forall (fun e => is_fs_mutation e = false) evs.
Proof.
  assert (H1 : matches Sample.clash ≠ []) by (vm_compute; discriminate).
  assert (H2 : fixConflicts Sample.clash = false) by reflexivity.
  assert (H3 : (detectConflicts Sample.two_files Sample.clash).1 ≠ ∅)
    by (vm_compute; discriminate).
  split; [by repeat split|].
  exact (apply_conflict_blocks_without_mutation detectConflicts
           (mkState Sample.two_files []) Sample.clash H1 H2 H3).
Defined.

(** An operation without matches. *)
Lemma apply_empty_batch_witness :
  matches Sample.op0 = []
  ∧ ∃ st',
      apply detectConflicts (mkState Sample.two_files []) Sample.op0 = (st', Sample.op0, None)
      ∧ world st' = Sample.two_files
      ∧ ∃ evs, log st' = [] ++ evs ∧ Forall (fun e => is_fs_access e = false) evs.
Proof.
  split; [reflexivity|].
  exact (apply_empty_batch_is_noop detectConflicts (mkState Sample.two_files []) Sample.op0
           eq_refl).
Defined.

(** Three previews of renaming "a" to "c". *)
Lemma preview_witness :
  exec Sample.preview_op = false
  ∧ ∃ st' rs,
      previews detectConflicts 3 (mkState Sample.two_files []) Sample.preview_op = (st', rs)
      ∧ world st' = Sample.two_files
      ∧ (∃ evs, log st' = [] ++ evs ∧ Forall (fun e => is_fs_mutation e = false) evs)
      ∧ length rs = 3%nat
      ∧ Forall (fun r => r = ((apply detectConflicts (mkState Sample.two_files [])
                                     Sample.preview_op).1.2,
                              (apply detectConflicts (mkState Sample.two_files [])
                                     Sample.preview_op).2)) rs.
Proof.
  split; [reflexivity|].
  exact (preview_is_pure_and_repeatable detectConflicts 3 (mkState Sample.two_files [])
           Sample.preview_op eq_refl).
Defined.

(** The validator modelled from the spec does not read the quiet flag;
    the partly failed run of three candidates, quiet and not. *)
Lemma quiet_witness :
  (∀ w o q, detectConflicts w (set_quiet q o) = detectConflicts w o)
  ∧ (apply detectConflicts (mkState Sample.three_files []) (set_quiet true Sample.three)).2
    = (apply detectConflicts (mkState Sample.three_files []) (set_quiet false Sample.three)).2
  ∧ world (apply detectConflicts (mkState Sample.three_files [])
                 (set_quiet true Sample.three)).1.1
    = world (apply detectConflicts (mkState Sample.three_files [])
                   (set_quiet false Sample.three)).1.1.
Proof.
  assert (Hv : ∀ w o q, detectConflicts w (set_quiet q o) = detectConflicts w o)
    by (intros w o q; reflexivity).
  split; [exact Hv|].
  exact (apply_error_independent_of_quiet detectConflicts (mkState Sample.three_files [])
           Sample.three Hv).
Defined.

(** * Further properties of the operation *)

(** ** The executor and the journal *)

Section MoreExecutorFacts.
Context {W : Type} `{OS W}.

Lemma rename_loop_plain ms : ∀ (st : State W) errs,
  Forall (λ ch, needsDir ch = false) ms ->
  ∃ st' rs,
    fold_left renameStep ms (st, errs) = (st', errs ++ omap failed (zip ms rs))
    ∧ renames (world st) ms (world st') rs
    ∧ log st' = log st ++ zip_with (λ ch r, EvRename (sourcePath ch) (targetPath ch) r) ms rs.
Proof.
  induction ms as [|ch ms IH]; intros st errs Hplain.
  { exists st, []. cbn. rewrite !app_nil_r. repeat split. constructor. }
  apply Forall_cons in Hplain as [Hch Hplain].
  cbn [fold_left]. unfold renameStep at 2. rewrite Hch. unfold Rename.
  fold (sourcePath ch) (targetPath ch).
  destruct (os_Rename (sourcePath ch) (targetPath ch) (world st)) as [w2 r] eqn:Hrn.
  set (st1 := mkState w2 (log st ++ [EvRename (sourcePath ch) (targetPath ch) r])).
  destruct (IH st1 (errs ++ omap failed [(ch, r)]) Hplain) as (st' & rs & Hfold & Hren & Hl).
  exists st', (r :: rs). split; [|split].
  - replace (match r with Some e => (st1, errs ++ [mkRenameError ch e]) | None => (st1, errs) end)
      with (st1, errs ++ omap failed [(ch, r)])
      by (destruct r; cbn; [done|by rewrite app_nil_r]).
    rewrite Hfold, <- app_assoc. f_equal. cbn [zip zip_with]. by destruct r.
  - econstructor; [exact Hrn|exact Hren].
  - rewrite Hl. subst st1. cbn [log zip_with]. by rewrite <- app_assoc.
Qed.

(** X1: on a system other than Windows, for a batch none of whose targets
    holds a slash, [rename] makes exactly one call per candidate, in order:
    its [os.Rename], on the world the call before it left.  No directory is
    created; the world [rename] leaves is the one the last call left, and
    the recorded errors are exactly the calls that failed, each paired with
    its candidate. *)
Theorem rename_without_separator_only_renames (st : State W) (op : Operation) :
  GOOS ≠ windows ->
  Forall (λ ch, strings.Contains (Target ch) "/" = false) (matches op) ->
  ∃ st' rs,
    rename st op = (st', set_errors (omap failed (zip (matches op) rs)) op)
    ∧ renames (world st) (matches op) (world st') rs
    ∧ log st'
      = log st ++ zip_with (λ ch r, EvRename (sourcePath ch) (targetPath ch) r) (matches op) rs.
Proof.
  intros Hos Hno.
  assert (Hplain : Forall (λ ch, needsDir ch = false) (matches op)).
  { eapply Forall_impl; [exact Hno|]. intros ch Hch. unfold needsDir.
    rewrite Hch, bool_decide_eq_false_2 by done. by rewrite andb_false_r. }
  destruct (rename_loop_plain (matches op) st [] Hplain) as (st' & rs & Hfold & Hren & Hl).
  exists st', rs. unfold rename. by rewrite Hfold.
Qed.

(** X2: [writeToFile] calls [os.Create]; when that fails it makes no other
    call and returns that error.  Otherwise it writes the journal of the
    matches, dated now, to the file and closes it, also when the write
    failed, each call on the world the call before it left; it returns the
    error of the close if that failed and the error of the write
    otherwise, and leaves the world the close left. *)
Theorem writeToFile_create_write_close (f : string) (st : State W) (op : Operation) :
  ∃ w1 cerr,
    os_Create f (world st) = (w1, cerr)
    ∧ match cerr with
      | Some e =>
        writeToFile f st op = (mkState w1 (log st ++ [EvCreate f (Some e)]), Some e)
      | None =>
        let mf := mkMapFile (time.Format (time_Now w1) time.RFC3339) (matches op) in
        ∃ w2 werr w3 ferr,
          file_Write f (json_MarshalIndent mf) w1 = (w2, werr)
          ∧ file_Close f w2 = (w3, ferr)
          ∧ writeToFile f st op
            = (mkState w3 (log st ++ [EvCreate f None; EvWrite f mf werr; EvClose f ferr]),
               match ferr with Some e => Some e | None => werr end)
      end.
Proof.
  unfold writeToFile, Create, Write, Close.
  destruct (os_Create f (world st)) as [w1 [e|]] eqn:Hc.
  - exists w1, (Some e). split; [done|]. reflexivity.
  - exists w1, None. split; [done|]. cbv zeta. cbn [world log].
    destruct (file_Write f _ w1) as [w2 werr] eqn:Hw. cbn [world log].
    destruct (file_Close f w2) as [w3 ferr] eqn:Hcl.
    exists w2, werr, w3, ferr. split; [done|]. split; [done|].
    by rewrite <- !app_assoc.
Qed.

(** What [handleErrors] returns, and what it keeps of the batch. *)
Lemma handleErrors_outcome (st : State W) (op : Operation) :
  let kept := filter (λ m, Target m ∉ failedTargets op) (matches op) in
  ∃ st' e,
    handleErrors st op = (st', set_matches kept op, Some e)
    ∧ (kept = [] -> e = errFailed ∧ world st' = world st
                    ∧ ∃ evs, log st' = log st ++ evs
                             ∧ Forall (λ ev, is_fs_access ev = false) evs)
    ∧ (kept ≠ [] -> e = errNotRenamed ∨ e = errRecovery (recoveryFile (time_Now (world st)))).
Proof.
  intros kept. unfold handleErrors. rewrite removeErrors_filter. fold (failedTargets op).
  fold kept.
  replace (matches (set_matches kept op)) with kept by (by destruct op).
  unfold reportErrors. cbn [emit world].
  destruct kept as [|m kept'] eqn:Hk.
  - cbn [length]. rewrite Nat.ltb_irrefl.
    eexists _, _. split; [reflexivity|]. split; [|done].
    intros _. split; [done|]. split; [done|]. cbn [log].
    eexists [_]. split; [reflexivity|]. by repeat constructor.
  - cbn [length]. replace (0 <? S (length kept'))%nat with true by done.
    destruct (writeToFile _ _ _) as [st1 [e|]];
      eexists _, _; (split; [reflexivity|]); (split; [done|]); intros _; auto.
Qed.

(** X3: [handleErrors] cuts out of the batch the candidates whose target
    name is the target name of a failed candidate, keeps the others in
    their order, and never returns nil: the error names the recovery file,
    or says that the journal could not be written or that nothing is
    left. *)
Theorem handleErrors_keeps_other_targets (st : State W) (op : Operation) :
  ∃ st' e,
    handleErrors st op
    = (st', set_matches (filter (λ m, Target m ∉ failedTargets op) (matches op)) op, Some e)
    ∧ (e = errFailed ∨ e = errNotRenamed
       ∨ e = errRecovery (recoveryFile (time_Now (world st)))).
Proof.
  destruct (handleErrors_outcome st op) as (st' & e & Heq & Hnil & Hcons).
  exists st', e. split; [exact Heq|].
  destruct (filter (λ m, Target m ∉ failedTargets op) (matches op)) eqn:Hk.
  - left. by apply Hnil.
  - right. by apply Hcons.
Qed.

(** X4: when every candidate of the batch failed, [handleErrors] writes no
    recovery file: it reports, reaches the filesystem with no call, leaves
    the world as it was and returns the error that the operation
    failed. *)
Theorem handleErrors_all_failed_writes_nothing (st : State W) (op : Operation) :
  Forall (λ m, m ∈ map entry (errors op)) (matches op) ->
  ∃ st',
    handleErrors st op = (st', set_matches [] op, Some errFailed)
    ∧ world st' = world st
    ∧ ∃ evs, log st' = log st ++ evs ∧ Forall (λ ev, is_fs_access ev = false) evs.
Proof.
  intros Hall.
  assert (Hk : filter (λ m, Target m ∉ failedTargets op) (matches op) = []).
  { induction (matches op) as [|m ms IH]; [done|].
    apply Forall_cons in Hall as [Hm Hall].
    rewrite filter_cons_False; [by apply IH|].
    intros Hn. apply Hn. unfold failedTargets.
    apply list_elem_of_fmap in Hm as (v & -> & Hv). apply list_elem_of_fmap. by exists v. }
  destruct (handleErrors_outcome st op) as (st' & e & Heq & Hnil & _).
  cbv zeta in Heq, Hnil. rewrite Hk in Heq, Hnil.
  destruct (Hnil eq_refl) as (-> & Hw & Hevs).
  exists st'. by repeat split.
Qed.

End MoreExecutorFacts.

(** ** [apply], [sortMatches] and [undo] *)

Section MoreApplyFacts.
Context {W : Type} `{OS W}.
Variable validate : W -> Operation -> gmap conflict (list Conflict) * list Change.

(** X5: with auto-fix on, [apply] never returns the blocking conflict
    error, whatever the validator reports. *)
Theorem apply_autofix_never_blocks (st : State W) (op : Operation) :
  fixConflicts op = true ->
  (apply validate st op).2 ≠ Some errConflictDetected.
Proof.
  intros Hfix. unfold apply.
  destruct (decide (length (matches op) = 0%nat)) as [Hz|_]; [done|].
  unfold run_validate. destruct (validate (world st) op) as [cs ms].
  replace (fixConflicts (set_conflicts cs (set_matches ms op))) with true
    by (by destruct op).
  rewrite andb_false_r.
  set (op1 := set_conflicts cs (set_matches ms op)).
  destruct (exec op1); [|by destruct (quiet op1)].
  destruct (rename _ _) as [st2 op2].
  destruct (0 <? length (errors op2))%nat.
  - destruct (handleErrors_outcome st2 op2) as (st3 & e & Heq & Hnil & Hcons).
    cbv zeta in Heq, Hnil, Hcons. rewrite Heq. cbn [snd].
    destruct (filter (λ m, Target m ∉ failedTargets op2) (matches op2)).
    + by destruct (Hnil eq_refl) as [-> _].
    + by destruct (Hcons ltac:(done)) as [->| ->].
  - destruct (bool_decide (outputFile op2 ≠ "")); [|done].
    by destruct (writeToFile _ _ _) as [st3 [e|]].
Qed.

(** X6: [sortMatches] only rearranges the batch: the matches are the same
    up to their order, and every other field of the operation is as it
    was. *)
Theorem sortMatches_only_reorders (op : Operation) :
  matches (sortMatches op) ≡ₚ matches op
  ∧ set_matches (matches op) (sortMatches op) = op.
Proof.
  unfold sortMatches. destruct op. cbn [matches set_matches]. split; [|done].
  apply SliceStable_perm.
Qed.

Lemma insert_always_less {A} (less : A -> A -> bool) x left :
  (∀ y, less x y = true) -> sort.insert less x left = left ++ [x].
Proof.
  intros Hx. induction left as [|y left IH]; [done|].
  cbn [sort.insert]. by rewrite Hx, IH.
Qed.

Lemma insertion_always_less {A} (less : A -> A -> bool) l : ∀ left,
  Forall (λ x, ∀ y, less x y = true) l ->
  fold_left (λ left x, sort.insert less x left) l left = left ++ l.
Proof.
  induction l as [|x l IH]; intros left Hl; [by rewrite app_nil_r|].
  apply Forall_cons in Hl as [Hx Hl]. cbn [fold_left].
  rewrite insert_always_less by done. rewrite IH by done. by rewrite <- app_assoc.
Qed.

(** X7: outside undo mode a batch of at most 20 files and no directory
    comes out of [sortMatches] in the reverse of its order: every file
    counts as less than whatever stands before it. *)
Theorem sortMatches_reverses_files (op : Operation) :
  undoFile op = "" ->
  (length (matches op) ≤ 20)%nat ->
  Forall (λ m, IsDir m = false) (matches op) ->
  matches (sortMatches op) = rev (matches op).
Proof.
  intros Hu _ Hfiles. unfold sortMatches. destruct op. cbn [matches set_matches undoFile] in *.
  unfold sort.SliceStable, sort.insertionSort. f_equal.
  rewrite insertion_always_less; [done|].
  eapply Forall_impl; [exact Hfiles|]. intros m Hm y. unfold sortMatches_less.
  cbn [undoFile]. rewrite bool_decide_eq_false_2 by (intros Hc; by apply Hc).
  by rewrite Hm.
Qed.

(** X8: when the journal cannot be read, or is read and cannot be decoded,
    [undo] returns that error; the validator is not run, nothing is
    renamed, and the world and the operation are as they were. *)
Theorem undo_unreadable_journal (st : State W) (op : Operation) :
  (∃ e, os_ReadFile (undoFile op) (world st) = inr e)
  ∨ (∃ file msg, os_ReadFile (undoFile op) (world st) = inl file
                 ∧ json_Unmarshal file = inr msg) ->
  ∃ e,
    undo validate st op = Some (emit (EvReadFile (undoFile op)) st, op, Some e)
    ∧ ((∃ x, os_ReadFile (undoFile op) (world st) = inr x ∧ e = errOS x)
       ∨ (∃ msg, e = errJSON msg)).
Proof.
  intros [[e Hread]|(file & msg & Hread & Hjson)]; unfold undo, ReadFile.
  - rewrite Hread. exists (errOS e). split; [done|]. left. by exists e.
  - rewrite Hread, Hjson. exists (errJSON msg). split; [done|]. right. by exists msg.
Qed.

Lemma SliceStableP_nil {A} (less : A -> A -> option bool) :
  sort.SliceStableP less [] = Some [].
Proof. reflexivity. Qed.

(** X9: the undo of a journal that lists no operation returns nil: the
    validator is not run and nothing is renamed, in execute mode and in
    preview, with or without a sort key. *)
Theorem undo_empty_journal (st : State W) (op : Operation) (file : Bytes) (mf : mapFile) :
  os_ReadFile (undoFile op) (world st) = inl file ->
  json_Unmarshal file = inl mf ->
  Operations mf = [] ->
  ∃ st',
    undo validate st op = Some (st', set_matches [] op, None)
    ∧ world st' = world st
    ∧ Forall (λ ev, ev = EvReadFile (undoFile op) ∨ is_fs_access ev = false)
             (drop (length (log st)) (log st')).
Proof.
  intros Hread Hjson Hops. unfold undo, ReadFile. rewrite Hread, Hjson, Hops. cbn [map].
  set (op0 := set_matches [] op).
  assert (Hm : matches op0 = []) by (by destruct op).
  assert (Hsort : sortBy (world (emit (EvReadFile (undoFile op)) st)) op0 = Some op0).
  { assert (Hid : set_matches [] op0 = op0) by (subst op0; by destruct op).
    unfold sortBy, sortBySize, sortByTime. rewrite Hm, !SliceStableP_nil.
    cbn [mbind option_bind]. rewrite Hid.
    destruct (decide (sort op0 = "size")); [done|].
    by destruct (bool_decide (sort op0 ∈ [accessTime; modTime; birthTime; changeTime])). }
  assert (Hap : ∃ st', apply validate (emit (EvReadFile (undoFile op)) st) op0
                       = (st', op0, None)
                       ∧ world st' = world st
                       ∧ Forall (λ ev, ev = EvReadFile (undoFile op) ∨ is_fs_access ev = false)
                                (drop (length (log st)) (log st'))).
  { unfold apply. rewrite Hm. cbn [length].
    destruct (decide (0%nat = 0%nat)) as [_|Hne]; [|done].
    destruct (quiet op0); eexists; (split; [reflexivity|]); (split; [reflexivity|]);
      cbn [emit log]; rewrite <- ?app_assoc, drop_app_length.
    - constructor; [by left|constructor].
    - constructor; [by left|]. constructor; [by right|constructor]. }
  destruct Hap as (st' & Hap & Hw & Hlog).
  exists st'. split; [|done].
  destruct (negb (exec op0) && bool_decide (sort op0 ≠ "")).
  - rewrite Hsort. cbn. by rewrite Hap.
  - by rewrite Hap.
Qed.

End MoreApplyFacts.

(** ** The pre-numbering sort *)

Section PartialSortFacts.
Context {A : Type}.

Lemma insertP_perm (less : A -> A -> option bool) x left r :
  sort.insertP less x left = Some r -> r ≡ₚ x :: left.
Proof.
  revert r. induction left as [|y left IH]; intros r Hr.
  { cbn in Hr. by simplify_eq. }
  cbn [sort.insertP] in Hr. destruct (less x y) as [[|]|]; cbn in Hr; [| |done].
  - destruct (sort.insertP less x left) as [r'|] eqn:Hi; cbn in Hr; [|done].
    simplify_eq. rewrite (IH r' eq_refl). apply Permutation_swap.
  - by simplify_eq.
Qed.

Lemma foldl_insertP_None (less : A -> A -> option bool) l :
  foldl (λ left x, left ← left; sort.insertP less x left) None l = None.
Proof. induction l as [|x l IH]; [done|]. cbn. exact IH. Qed.

Lemma foldl_insertP_perm (less : A -> A -> option bool) l : ∀ acc r,
  foldl (λ left x, left ← left; sort.insertP less x left) (Some acc) l = Some r ->
  r ≡ₚ rev l ++ acc.
Proof.
  induction l as [|x l IH]; intros acc r Hr.
  { cbn in Hr. by simplify_eq. }
  cbn [foldl] in Hr. cbn [mbind option_bind] in Hr.
  destruct (sort.insertP less x acc) as [acc'|] eqn:Hi.
  - rewrite (IH acc' r Hr), (insertP_perm _ _ _ _ Hi). cbn [rev].
    by rewrite <- app_assoc.
  - by rewrite foldl_insertP_None in Hr.
Qed.

(** The sort, when it returns, has rearranged the slice. *)
Lemma SliceStableP_perm (less : A -> A -> option bool) l r :
  sort.SliceStableP less l = Some r -> r ≡ₚ l.
Proof.
  unfold sort.SliceStableP. intros Hr.
  destruct (foldl _ (Some []) l) as [acc|] eqn:Hf; cbn in Hr; [|done]. simplify_eq.
  rewrite <- Permutation_rev, (foldl_insertP_perm _ _ _ _ Hf), app_nil_r.
  symmetry. apply Permutation_rev.
Qed.

(** A comparison that looks up a key of either element, panics when a
    lookup fails, and otherwise compares the keys. *)
Variable key : A -> option Z.
Variable cmp : Z -> Z -> bool.
Variable less : A -> A -> option bool.
Hypothesis less_key : ∀ x y, less x y = (kx ← key x; ky ← key y; Some (cmp kx ky)).

Definition lessB (x y : A) : bool :=
  match key x, key y with
  | Some kx, Some ky => cmp kx ky
  | _, _ => false
  end.

Lemma insertP_keys x left :
  is_Some (key x) -> Forall (λ y, is_Some (key y)) left ->
  sort.insertP less x left = Some (sort.insert lessB x left).
Proof.
  intros [kx Hx] Hleft. induction Hleft as [|y left [ky Hy] Hleft IH]; [done|].
  cbn [sort.insertP sort.insert]. rewrite less_key. unfold lessB at 1. rewrite Hx, Hy.
  cbn [mbind option_bind]. destruct (cmp kx ky); [|done]. by rewrite IH.
Qed.

Lemma foldl_insertP_keys l : ∀ acc,
  Forall (λ y, is_Some (key y)) l -> Forall (λ y, is_Some (key y)) acc ->
  foldl (λ left x, left ← left; sort.insertP less x left) (Some acc) l
  = Some (fold_left (λ left x, sort.insert lessB x left) l acc).
Proof.
  induction l as [|x l IH]; intros acc Hl Hacc; [done|].
  apply Forall_cons in Hl as [Hx Hl]. cbn [foldl fold_left]. cbn [mbind option_bind].
  rewrite insertP_keys by done. apply IH; [done|].
  rewrite insert_perm. by constructor.
Qed.

(** When every key can be looked up the sort does not panic, and it is the
    sort by the comparison of the keys. *)
Lemma SliceStableP_keys l :
  Forall (λ y, is_Some (key y)) l ->
  sort.SliceStableP less l = Some (sort.SliceStable lessB l).
Proof.
  intros Hl. unfold sort.SliceStableP, sort.SliceStable, sort.insertionSort.
  by rewrite foldl_insertP_keys.
Qed.

(** When a key cannot be looked up and the slice has two elements or more,
    the sort panics. *)
Lemma insertP_missing x y left :
  key x = None ∨ key y = None -> sort.insertP less x (y :: left) = None.
Proof.
  intros Hm. cbn [sort.insertP]. rewrite less_key.
  destruct (key x) as [kx|]; [|done]. destruct (key y) as [ky|]; [|done].
  by destruct Hm.
Qed.

Lemma foldl_insertP_missing l : ∀ acc,
  acc ≠ [] -> Forall (λ y, is_Some (key y)) acc ->
  Exists (λ y, key y = None) l ->
  foldl (λ left x, left ← left; sort.insertP less x left) (Some acc) l = None.
Proof.
  induction l as [|x l IH]; intros acc Hne Hacc Hex.
  { by apply Exists_nil in Hex. }
  cbn [foldl]. cbn [mbind option_bind].
  destruct (key x) as [kx|] eqn:Hx.
  - apply Exists_cons in Hex as [Hex|Hex]; [congruence|].
    rewrite insertP_keys by (eauto || done). apply IH; [| |done].
    + intros Hnil. apply (f_equal length) in Hnil.
      pose proof (Permutation_length (insert_perm lessB x acc)) as Hlen.
      rewrite Hnil in Hlen. cbn in Hlen. lia.
    + rewrite insert_perm. constructor; [eauto|done].
  - destruct acc as [|y acc]; [done|].
    rewrite insertP_missing by (by left). apply foldl_insertP_None.
Qed.

Lemma SliceStableP_missing l :
  (2 ≤ length l)%nat -> Exists (λ y, key y = None) l ->
  sort.SliceStableP less l = None.
Proof.
  intros Hlen Hex. destruct l as [|x0 [|x1 l]]; cbn in Hlen; [lia|lia|].
  change (sort.SliceStableP less (x0 :: x1 :: l))
    with (@rev A <$> foldl (λ left x, left ← left; sort.insertP less x left)
                           (Some [x0]) (x1 :: l)).
  assert (Hnone : foldl (λ left x, left ← left; sort.insertP less x left)
                        (Some [x0]) (x1 :: l) = None).
  { destruct (key x0) as [k0|] eqn:H0.
    - apply Exists_cons in Hex as [Hex|Hex]; [congruence|].
      apply foldl_insertP_missing; [done| |done]. constructor; [eauto|constructor].
    - cbn [foldl]. cbn [mbind option_bind].
      rewrite insertP_missing by (by right). apply foldl_insertP_None. }
  by rewrite Hnone.
Qed.

(** The sort by keys keeps, for every key, the elements with that key in
    the order they had: it is stable. *)
Hypothesis cmp_irrefl : ∀ k, cmp k k = false.

Lemma insert_stable (k : Z) x left :
  filter (λ y, key y = Some k) (sort.insert lessB x left)
  = filter (λ y, key y = Some k) (x :: left).
Proof.
  induction left as [|y left IH]; [done|].
  cbn [sort.insert]. destruct (lessB x y) eqn:Hlt; [|done].
  rewrite filter_cons, IH, !filter_cons.
  destruct (decide (key y = Some k)) as [Hy|Hy];
    destruct (decide (key x = Some k)) as [Hx|Hx]; try done.
  unfold lessB in Hlt. rewrite Hx, Hy, cmp_irrefl in Hlt. done.
Qed.

Lemma insertion_stable (k : Z) l : ∀ acc,
  filter (λ y, key y = Some k) (fold_left (λ left x, sort.insert lessB x left) l acc)
  = filter (λ y, key y = Some k) (rev l ++ acc).
Proof.
  induction l as [|x l IH]; intros acc; [done|].
  cbn [fold_left rev]. rewrite IH, <- app_assoc. cbn [app].
  by rewrite !filter_app, insert_stable.
Qed.

Lemma filter_rev (Q : A -> Prop) `{!∀ x, Decision (Q x)} l :
  filter Q (rev l) = rev (filter Q l).
Proof.
  induction l as [|x l IH]; [done|].
  cbn [rev]. rewrite filter_app, IH, filter_cons.
  destruct (decide (Q x)); cbn [rev]; [by rewrite filter_cons_True|].
  by rewrite filter_cons_False, filter_nil, app_nil_r.
Qed.

Lemma SliceStable_stable (k : Z) l :
  filter (λ y, key y = Some k) (sort.SliceStable lessB l)
  = filter (λ y, key y = Some k) l.
Proof.
  unfold sort.SliceStable, sort.insertionSort.
  rewrite filter_rev, insertion_stable, app_nil_r, filter_rev. apply rev_involutive.
Qed.

End PartialSortFacts.

Section SortByFacts.
Context {W : Type} `{OS W}.

(** The comparison of keys in [sortBySize] and [sortByTime]. *)
Definition keyLess (op : Operation) (kx ky : Z) : bool :=
  if reverseSort op then (kx <? ky)%Z else (ky <? kx)%Z.

Lemma keyLess_irrefl op k : keyLess op k k = false.
Proof. unfold keyLess. destruct (reverseSort op); apply Z.ltb_irrefl. Qed.

(** With a sort key it knows, [sortBy] is the stable sort under a
    comparison that looks up the key of either match. *)
Lemma sortBy_by_key (w : W) (op : Operation) :
  sort op ∈ sortKeys ->
  ∃ less,
    (∀ x y, less x y
            = (kx ← sortKey w op x; ky ← sortKey w op y; Some (keyLess op kx ky)))
    ∧ sortBy w op = (ms ← sort.SliceStableP less (matches op); Some (set_matches ms op)).
Proof.
  intros Hkey. unfold sortBy, sortKey.
  destruct (decide (sort op = "size")) as [Hsize|Hsize].
  - exists (sortBySize_less w op). split; [|done]. intros x y.
    unfold sortBySize_less, keyLess. done.
  - exists (sortByTime_less w op). split.
    + intros x y. unfold sortByTime_less, keyLess.
      destruct (times_Stat (sourcePath x) w); [|done].
      by destruct (times_Stat (sourcePath y) w).
    + rewrite bool_decide_eq_true_2; [done|].
      unfold sortKeys in Hkey. apply elem_of_cons in Hkey as [Hkey|Hkey]; done.
Qed.

(** X10: with a sort key it knows, and when the size or the times of
    every match can be looked up, [sortBy] does not panic: it rearranges
    the matches so that the keys never increase, or never decrease under
    [reverseSort], and changes no other field. *)
Theorem sortBy_orders_by_key (w : W) (op : Operation) :
  sort op ∈ sortKeys ->
  Forall (λ m, is_Some (sortKey w op m)) (matches op) ->
  ∃ ms,
    sortBy w op = Some (set_matches ms op)
    ∧ ms ≡ₚ matches op
    ∧ StronglySorted (λ a b, ∃ ka kb, sortKey w op a = Some ka ∧ sortKey w op b = Some kb
                                     ∧ keyOrder op ka kb) ms.
Proof.
  intros Hkey Hall.
  destruct (sortBy_by_key w op Hkey) as (less & Hless & Hsort).
  rewrite Hsort, (SliceStableP_keys (sortKey w op) (keyLess op) less Hless _ Hall).
  eexists. split; [reflexivity|]. split; [apply SliceStable_perm|].
  apply (SliceStable_sorted _ (λ m, is_Some (sortKey w op m))); [| | |exact Hall].
  - intros x y z (kx & ky & Hx & Hy & Hxy) (ky' & kz & Hy' & Hz & Hyz).
    exists kx, kz. split; [done|]. split; [done|]. simplify_eq.
    unfold keyOrder in *. destruct (reverseSort op); lia.
  - intros x y [kx Hx] [ky Hy] Hlt. exists kx, ky. split; [done|]. split; [done|].
    unfold lessB in Hlt. rewrite Hx, Hy in Hlt. unfold keyLess, keyOrder in *.
    destruct (reverseSort op); apply Z.ltb_lt in Hlt; lia.
  - intros x y [kx Hx] [ky Hy] Hlt. exists ky, kx. split; [done|]. split; [done|].
    unfold lessB in Hlt. rewrite Hx, Hy in Hlt. unfold keyLess, keyOrder in *.
    destruct (reverseSort op); apply Z.ltb_ge in Hlt; lia.
Qed.

(** X11: [sortBy] is stable: the matches that have the same key come out
    in the order they went in. *)
Theorem sortBy_is_stable (w : W) (op : Operation) (k : Z) :
  sort op ∈ sortKeys ->
  Forall (λ m, is_Some (sortKey w op m)) (matches op) ->
  ∃ ms,
    sortBy w op = Some (set_matches ms op)
    ∧ filter (λ m, sortKey w op m = Some k) ms
      = filter (λ m, sortKey w op m = Some k) (matches op).
Proof.
  intros Hkey Hall.
  destruct (sortBy_by_key w op Hkey) as (less & Hless & Hsort).
  rewrite Hsort, (SliceStableP_keys (sortKey w op) (keyLess op) less Hless _ Hall).
  eexists. split; [reflexivity|].
  apply SliceStable_stable. apply keyLess_irrefl.
Qed.

(** X12: with a sort key it knows and two matches or more, [sortBy]
    panics when the size or the times of some match cannot be looked up:
    the comparison calls a method on the nil result of the failed
    lookup. *)
Theorem sortBy_panics_on_failed_lookup (w : W) (op : Operation) :
  sort op ∈ sortKeys ->
  (2 ≤ length (matches op))%nat ->
  Exists (λ m, sortKey w op m = None) (matches op) ->
  sortBy w op = None.
Proof.
  intros Hkey Hlen Hex.
  destruct (sortBy_by_key w op Hkey) as (less & Hless & Hsort).
  by rewrite Hsort, (SliceStableP_missing (sortKey w op) (keyLess op) less Hless _ Hlen Hex).
Qed.

(** A [sortBy] that returns has rearranged the matches and touched no
    other field. *)
Lemma sortBy_rearranges (w : W) (op op' : Operation) :
  sortBy w op = Some op' ->
  matches op' ≡ₚ matches op ∧ set_matches (matches op) op' = op.
Proof.
  intros Hs. unfold sortBy, sortBySize, sortByTime in Hs.
  destruct (decide (sort op = "size")) as [Hsize|Hsize].
  - destruct (sort.SliceStableP _ (matches op)) as [ms|] eqn:Hms; cbn in Hs; [|done].
    simplify_eq. apply SliceStableP_perm in Hms. split; by destruct op.
  - destruct (bool_decide (sort op ∈ [accessTime; modTime; birthTime; changeTime])) eqn:Hb.
    + destruct (sort.SliceStableP _ (matches op)) as [ms|] eqn:Hms; cbn in Hs; [|done].
      simplify_eq. apply SliceStableP_perm in Hms. split; by destruct op.
    + simplify_eq. split; [done|by destruct op'].
Qed.

(** X13: whatever the sort key, a [sortBy] that returns has only
    rearranged the matches, and with a key it does not know it returns the
    operation as it is. *)
Theorem sortBy_only_reorders (w : W) (op op' : Operation) :
  sortBy w op = Some op' ->
  matches op' ≡ₚ matches op
  ∧ set_matches (matches op) op' = op
  ∧ (sort op ∉ sortKeys -> op' = op).
Proof.
  intros Hs. unfold sortBy, sortBySize, sortByTime in Hs.
  destruct (decide (sort op = "size")) as [Hsize|Hsize].
  - destruct (sort.SliceStableP _ (matches op)) as [ms|] eqn:Hms; cbn in Hs; [|done].
    simplify_eq. apply SliceStableP_perm in Hms.
    split; [by destruct op|]. split; [by destruct op|].
    intros Hn. destruct Hn. rewrite Hsize. by left.
  - destruct (bool_decide (sort op ∈ [accessTime; modTime; birthTime; changeTime])) eqn:Hb.
    + destruct (sort.SliceStableP _ (matches op)) as [ms|] eqn:Hms; cbn in Hs; [|done].
      simplify_eq. apply SliceStableP_perm in Hms.
      split; [by destruct op|]. split; [by destruct op|].
      intros Hn. destruct Hn. apply bool_decide_eq_true_1 in Hb. by right.
    + simplify_eq. split; [done|]. split; [by destruct op'|done].
Qed.

End SortByFacts.

(** ** The undo run *)

Section UndoRun.
Context {W : Type} `{OS W}.
Variable validate : W -> Operation -> gmap conflict (list Conflict) * list Change.

(** C3: in undo mode the run does not reach the matcher or the
    transformer, whatever they are: it is [undo].  When the journal is read
    and decoded, the reversed batch goes to [apply]: as it is in execute
    mode or without a sort key; in preview with a sort key after [sortBy],
    which may panic and otherwise only rearranges it.  The batch that
    reaches [apply] goes through the conflict validator on its way to the
    executor: when the validator reports a conflict on it and auto-fix is
    off, the undo ends in the blocking conflict error, the world is as it
    was and no call has changed the filesystem. *)
Theorem undo_skips_matcher_and_transformer_only
    (findMatches : W -> Operation -> Operation + error)
    (filterMatches : Operation -> Operation + error)
    (replace : W -> Operation -> Operation + error)
    (st : State W) (op : Operation) :
  undoFile op ≠ "" ->
  run validate findMatches filterMatches replace st op = undo validate st op
  ∧ ∀ file mf,
      os_ReadFile (undoFile op) (world st) = inl file ->
      json_Unmarshal file = inl mf ->
      let st1 := emit (EvReadFile (undoFile op)) st in
      let reversed := set_matches (map swap (Operations mf)) op in
      let sorted := if negb (exec op) && bool_decide (sort op ≠ "")
                    then sortBy (world st) reversed else Some reversed in
      undo validate st op = (op2 ← sorted; Some (apply validate st1 op2))
      ∧ (exec op = true ∨ sort op = "" ->
         undo validate st op = Some (apply validate st1 reversed))
      ∧ ∀ op2, sorted = Some op2 ->
          matches op2 ≡ₚ map swap (Operations mf)
          ∧ set_matches (map swap (Operations mf)) op2 = reversed
          ∧ (Operations mf ≠ [] ->
             fixConflicts op = false ->
             (validate (world st) op2).1 ≠ ∅ ->
             ∃ st' op',
               undo validate st op = Some (st', op', Some errConflictDetected)
               ∧ world st' = world st
               ∧ Forall (fun e => is_fs_mutation e = false)
                        (drop (length (log st)) (log st'))).
Proof.
  intros Hundo. split.
  { unfold run. by rewrite bool_decide_eq_true_2. }
  intros file mf Hread Hjson st1 reversed sorted.
  assert (Hm : matches reversed = map swap (Operations mf)) by (by destruct op).
  assert (Hun : undo validate st op = (op2 ← sorted; Some (apply validate st1 op2))).
  { unfold undo, ReadFile. rewrite Hread, Hjson. fold reversed st1. subst sorted.
    replace (exec reversed) with (exec op) by (by destruct op).
    replace (sort reversed) with (sort op) by (by destruct op).
    replace (world st1) with (world st) by done.
    by destruct (negb (exec op) && bool_decide (sort op ≠ "")). }
  split; [exact Hun|]. split.
  { intros Hmode. rewrite Hun. subst sorted.
    replace (negb (exec op) && bool_decide (sort op ≠ "")) with false; [done|].
    destruct Hmode as [->| ->]; [done|]. by rewrite andb_false_r. }
  intros op2 Hsorted.
  assert (Hre : matches op2 ≡ₚ map swap (Operations mf)
                ∧ set_matches (map swap (Operations mf)) op2 = reversed).
  { subst sorted. destruct (negb (exec op) && bool_decide (sort op ≠ "")).
    - apply sortBy_rearranges in Hsorted as [Hp Hs]. rewrite Hm in Hp, Hs. done.
    - injection Hsorted as <-. rewrite Hm. split; [done|]. unfold reversed. by destruct op. }
  destruct Hre as [Hp Hs]. split; [exact Hp|]. split; [exact Hs|].
  intros Hne Hfix Hcs.
  destruct (apply_blocked validate st1 op2) as (st' & op' & Hap & Hw & evs & Hl & Hmut).
  - intros Hnil. rewrite Hnil in Hp. apply Permutation_nil in Hp.
    by destruct (Operations mf).
  - apply (f_equal fixConflicts) in Hs. unfold reversed in Hs.
    destruct op, op2; cbn in *; congruence.
  - exact Hcs.
  - exists st', op'. rewrite Hun, Hsorted. cbn [mbind option_bind]. rewrite Hap.
    split; [done|]. split; [exact Hw|].
    rewrite Hl. subst st1. cbn [emit log]. rewrite <- app_assoc, drop_app_length.
    constructor; [done|exact Hmut].
Qed.

End UndoRun.

(** The undo, in preview and sorted by size, of the journal of "a" to "b"
    and "c" to "d", where "a" exists again: the reversed batch is
    rearranged, the larger file first, and the validator blocks it. *)
Lemma undo_validator_witness :
  undoFile Sample.undo_preview_by_size ≠ ""
  ∧ run detectConflicts Sample.idle_stage Sample.idle_filter Sample.idle_stage
        (mkState Sample.renamed_two []) Sample.undo_preview_by_size
    = undo detectConflicts (mkState Sample.renamed_two []) Sample.undo_preview_by_size
  ∧ sortBy Sample.renamed_two
           (set_matches (map swap (Operations Sample.journal_ab_cd))
                        Sample.undo_preview_by_size)
    = Some (set_matches [mkChange "" "d" "c" false; mkChange "" "b" "a" false]
                        Sample.undo_preview_by_size)
  ∧ ∃ st' op',
      undo detectConflicts (mkState Sample.renamed_two []) Sample.undo_preview_by_size
      = Some (st', op', Some errConflictDetected)
      ∧ world st' = Sample.renamed_two.
Proof.
  assert (Hu : undoFile Sample.undo_preview_by_size ≠ "") by (vm_compute; discriminate).
  assert (Hs : sortBy Sample.renamed_two
                 (set_matches (map swap (Operations Sample.journal_ab_cd))
                              Sample.undo_preview_by_size)
               = Some (set_matches [mkChange "" "d" "c" false; mkChange "" "b" "a" false]
                                   Sample.undo_preview_by_size))
    by (vm_compute; reflexivity).
  split; [exact Hu|].
  destruct (undo_skips_matcher_and_transformer_only detectConflicts
              Sample.idle_stage Sample.idle_filter Sample.idle_stage
              (mkState Sample.renamed_two []) Sample.undo_preview_by_size Hu) as [Hrun Hundo].
  split; [exact Hrun|]. split; [exact Hs|].
  destruct (Hundo (Journal Sample.journal_ab_cd) Sample.journal_ab_cd eq_refl eq_refl)
    as (_ & _ & Hall).
  destruct (Hall _ Hs) as (_ & _ & Hblock).
  destruct Hblock as (st' & op' & Heq & Hw & _).
  - vm_compute; discriminate.
  - reflexivity.
  - vm_compute; discriminate.
  - exists st', op'. split; [exact Heq|exact Hw].
Defined.

(** ** The journal when no two candidates share a target name *)

Section ExactJournal.
Context {W : Type} `{OS W}.

(** X14: when no two candidates of the batch have the same target name,
    [handleErrors] keeps exactly the candidates that did not fail, in
    their order. *)
Theorem handleErrors_exact_for_distinct_targets (st : State W) (op : Operation) :
  NoDup (map Target (matches op)) ->
  Forall (λ v, entry v ∈ matches op) (errors op) ->
  (handleErrors st op).1.2
  = set_matches (filter (λ m, m ∉ map entry (errors op)) (matches op)) op.
Proof.
  intros Hnd Herrs.
  destruct (handleErrors_outcome st op) as (st' & e & Heq & _).
  cbv zeta in Heq. rewrite Heq. cbn [fst snd]. f_equal.
  unfold failedTargets.
  by rewrite <- removeErrors_filter, removeErrors_exact.
Qed.

End ExactJournal.

(** ** An executed batch on the filesystem in memory *)

(** X15: on the filesystem in memory, an executed batch that the validator
    passes as it is, whose candidates are regular files renamed in place
    (the source is a file, the target path is free, its directory is there
    and the target name holds no slash), whose source and target paths are
    pairwise distinct, with nothing denied: [apply] returns nil, every
    content has moved from its source path to its target path, no other
    path but the output file has changed, and the journal, when one is
    asked for, holds the batch as it was executed. *)
Theorem apply_moves_every_candidate
    (validate : MemFS -> Operation -> gmap conflict (list Conflict) * list Change)
    (st : State MemFS) (op : Operation) :
  exec op = true ->
  denied (world st) = [] ->
  validate (world st) op = (∅, matches op) ->
  NoDup (map sourcePath (matches op) ++ map targetPath (matches op)) ->
  Forall (inPlace (world st)) (matches op) ->
  (outputFile op ≠ "" ->
   (outputFile op ∉ map sourcePath (matches op) ++ map targetPath (matches op))
   ∧ writable (outputFile op) (world st)) ->
  ∃ st' op',
    apply validate st op = (st', op', None)
    ∧ matches op' ≡ₚ matches op
    ∧ Forall (λ m, files (world st') !! targetPath m = files (world st) !! sourcePath m
                   ∧ files (world st') !! sourcePath m = None) (matches op)
    ∧ (∀ p, p ∉ map sourcePath (matches op) -> p ∉ map targetPath (matches op) ->
            (outputFile op ≠ "" -> p ≠ outputFile op) ->
            files (world st') !! p = files (world st) !! p)
    ∧ (outputFile op ≠ "" -> matches op ≠ [] ->
       ∃ date, files (world st') !! outputFile op
               = Some (Journal (json.roundTrip (mkMapFile date (matches op'))))).
Proof.
  intros Hexec Hden Hval Hnd Hall Hout.
  destruct (mem_apply_moves validate st op Hexec Hden Hval Hnd Hall Hout)
    as (st' & op' & Hap & _ & Hperm & Hmoved & Hframe & Hj).
  by exists st', op'.
Qed.

(** ** The further properties at sample inputs *)

(** The three candidates, none with a slash in its target: the first
    rename is refused, the other two succeed. *)
Lemma rename_without_separator_witness :
  (@GOOS MemFS MemOS ≠ windows
   ∧ Forall (λ ch, strings.Contains (Target ch) "/" = false) (matches Sample.three))
  ∧ ∃ st' rs,
      rename (mkState Sample.three_files []) Sample.three
      = (st', set_errors (omap failed (zip (matches Sample.three) rs)) Sample.three)
      ∧ renames Sample.three_files (matches Sample.three) (world st') rs
      ∧ log st'
        = [] ++ zip_with (λ ch r, EvRename (sourcePath ch) (targetPath ch) r)
                         (matches Sample.three) rs.
Proof.
  assert (H1 : @GOOS MemFS MemOS ≠ windows) by (vm_compute; discriminate).
  assert (H2 : Forall (λ ch, strings.Contains (Target ch) "/" = false) (matches Sample.three))
    by (repeat constructor).
  split; [by split|].
  exact (rename_without_separator_only_renames (mkState Sample.three_files []) Sample.three
           H1 H2).
Defined.

(** The one candidate of the batch failed. *)
Lemma handleErrors_all_failed_witness :
  Forall (λ m, m ∈ map entry (errors Sample.first_failed)) (matches Sample.first_failed)
  ∧ ∃ st',
      handleErrors (mkState Sample.three_files []) Sample.first_failed
      = (st', set_matches [] Sample.first_failed, Some errFailed)
      ∧ world st' = Sample.three_files
      ∧ ∃ evs, log st' = [] ++ evs ∧ Forall (λ ev, is_fs_access ev = false) evs.
Proof.
  assert (H1 : Forall (λ m, m ∈ map entry (errors Sample.first_failed))
                      (matches Sample.first_failed)).
  { constructor; [|constructor]. apply list_elem_of_here. }
  split; [exact H1|].
  exact (handleErrors_all_failed_writes_nothing (mkState Sample.three_files [])
           Sample.first_failed H1).
Defined.

(** The clash of "a" with "b", with auto-fix on. *)
Lemma apply_autofix_witness :
  fixConflicts (Sample.with_fixConflicts true Sample.clash) = true
  ∧ (apply detectConflicts (mkState Sample.two_files [])
           (Sample.with_fixConflicts true Sample.clash)).2 ≠ Some errConflictDetected.
Proof.
  split; [reflexivity|].
  exact (apply_autofix_never_blocks detectConflicts (mkState Sample.two_files [])
           (Sample.with_fixConflicts true Sample.clash) eq_refl).
Defined.

(** The three candidates are files. *)
Lemma sortMatches_reverses_witness :
  (undoFile Sample.three = "" ∧ (length (matches Sample.three) ≤ 20)%nat
   ∧ Forall (λ m, IsDir m = false) (matches Sample.three))
  ∧ matches (sortMatches Sample.three) = [Sample.c3; Sample.c2; Sample.c1].
Proof.
  assert (H2 : (length (matches Sample.three) ≤ 20)%nat) by (vm_compute; lia).
  assert (H3 : Forall (λ m, IsDir m = false) (matches Sample.three))
    by (repeat constructor).
  split; [by repeat split|].
  exact (sortMatches_reverses_files Sample.three eq_refl H2 H3).
Defined.

(** No journal is there to read. *)
Lemma undo_unreadable_witness :
  (∃ e, mem_ReadFile (undoFile Sample.undo_op) Sample.two_files = inr e)
  ∧ ∃ e,
      undo detectConflicts (mkState Sample.two_files []) Sample.undo_op
      = Some (emit (EvReadFile "undo.json") (mkState Sample.two_files []), Sample.undo_op,
              Some e)
      ∧ ((∃ x, mem_ReadFile (undoFile Sample.undo_op) Sample.two_files = inr x ∧ e = errOS x)
         ∨ (∃ msg, e = errJSON msg)).
Proof.
  assert (H1 : ∃ e, mem_ReadFile (undoFile Sample.undo_op) Sample.two_files = inr e)
    by (eexists; vm_compute; reflexivity).
  split; [exact H1|].
  exact (undo_unreadable_journal detectConflicts (mkState Sample.two_files [])
           Sample.undo_op (or_introl H1)).
Defined.

(** The journal lists no operation. *)
Lemma undo_empty_journal_witness :
  ∃ st',
    undo detectConflicts (mkState Sample.empty_journal []) Sample.undo_op
    = Some (st', set_matches [] Sample.undo_op, None)
    ∧ world st' = Sample.empty_journal
    ∧ Forall (λ ev, ev = EvReadFile "undo.json" ∨ is_fs_access ev = false)
             (drop 0 (log st')).
Proof.
  exact (undo_empty_journal detectConflicts (mkState Sample.empty_journal [])
           Sample.undo_op
           (Journal (mkMapFile "2021-03-05T14:07:09Z" []) : @Bytes _ MemOS)
           (mkMapFile "2021-03-05T14:07:09Z" []) eq_refl eq_refl eq_refl).
Defined.

(** Files of two, three and one bytes, by size. *)
Lemma sortBy_orders_witness :
  (sort Sample.by_size ∈ sortKeys
   ∧ Forall (λ m, is_Some (sortKey Sample.sized_files Sample.by_size m))
            (matches Sample.by_size))
  ∧ ∃ ms,
      sortBy Sample.sized_files Sample.by_size = Some (set_matches ms Sample.by_size)
      ∧ ms ≡ₚ matches Sample.by_size
      ∧ StronglySorted
          (λ a b, ∃ ka kb, sortKey Sample.sized_files Sample.by_size a = Some ka
                           ∧ sortKey Sample.sized_files Sample.by_size b = Some kb
                           ∧ keyOrder Sample.by_size ka kb) ms.
Proof.
  assert (H1 : sort Sample.by_size ∈ sortKeys) by (apply list_elem_of_here).
  assert (H2 : Forall (λ m, is_Some (sortKey Sample.sized_files Sample.by_size m))
                      (matches Sample.by_size)).
  { repeat constructor; eexists; vm_compute; reflexivity. }
  split; [by split|].
  exact (sortBy_orders_by_key Sample.sized_files Sample.by_size H1 H2).
Defined.

(** Two files of one byte and two of two bytes, by size: the larger ones
    come first, and the files of either size keep their order. *)
Lemma sortBy_stable_witness :
  (sort Sample.by_size_tied ∈ sortKeys
   ∧ Forall (λ m, is_Some (sortKey Sample.tied_files Sample.by_size_tied m))
            (matches Sample.by_size_tied)
   ∧ filter (λ m, sortKey Sample.tied_files Sample.by_size_tied m = Some 1%Z)
            (matches Sample.by_size_tied) = [Sample.t2; Sample.t4]
   ∧ sortBy Sample.tied_files Sample.by_size_tied
     = Some (set_matches [Sample.t1; Sample.t3; Sample.t2; Sample.t4] Sample.by_size_tied))
  ∧ ∃ ms,
      sortBy Sample.tied_files Sample.by_size_tied = Some (set_matches ms Sample.by_size_tied)
      ∧ filter (λ m, sortKey Sample.tied_files Sample.by_size_tied m = Some 1%Z) ms
        = filter (λ m, sortKey Sample.tied_files Sample.by_size_tied m = Some 1%Z)
                 (matches Sample.by_size_tied).
Proof.
  assert (H1 : sort Sample.by_size_tied ∈ sortKeys) by (apply list_elem_of_here).
  assert (H2 : Forall (λ m, is_Some (sortKey Sample.tied_files Sample.by_size_tied m))
                      (matches Sample.by_size_tied)).
  { repeat constructor; eexists; vm_compute; reflexivity. }
  split.
  { split; [exact H1|]. split; [exact H2|]. split; vm_compute; reflexivity. }
  exact (sortBy_is_stable Sample.tied_files Sample.by_size_tied 1%Z H1 H2).
Defined.

(** One of two files is gone. *)
Lemma sortBy_panics_witness :
  (sort Sample.by_size_missing ∈ sortKeys
   ∧ (2 ≤ length (matches Sample.by_size_missing))%nat
   ∧ Exists (λ m, sortKey Sample.sized_files Sample.by_size_missing m = None)
            (matches Sample.by_size_missing))
  ∧ sortBy Sample.sized_files Sample.by_size_missing = None.
Proof.
  assert (H1 : sort Sample.by_size_missing ∈ sortKeys) by (apply list_elem_of_here).
  assert (H2 : (2 ≤ length (matches Sample.by_size_missing))%nat) by (vm_compute; lia).
  assert (H3 : Exists (λ m, sortKey Sample.sized_files Sample.by_size_missing m = None)
                      (matches Sample.by_size_missing)).
  { apply Exists_cons_tl, Exists_cons_hd. vm_compute; reflexivity. }
  split; [by repeat split|].
  exact (sortBy_panics_on_failed_lookup Sample.sized_files Sample.by_size_missing H1 H2 H3).
Defined.

(** Files of two, three and one bytes: by size they are rearranged, the
    largest first. *)
Lemma sortBy_only_reorders_witness :
  sortBy Sample.sized_files Sample.by_size
  = Some (set_matches [mkChange "" "s3" "" false; mkChange "" "s2" "" false;
                       mkChange "" "s1" "" false] Sample.by_size)
  ∧ [mkChange "" "s3" "" false; mkChange "" "s2" "" false; mkChange "" "s1" "" false]
    ≡ₚ matches Sample.by_size
  ∧ set_matches (matches Sample.by_size)
      (set_matches [mkChange "" "s3" "" false; mkChange "" "s2" "" false;
                    mkChange "" "s1" "" false] Sample.by_size)
    = Sample.by_size.
Proof.
  assert (H1 : sortBy Sample.sized_files Sample.by_size
               = Some (set_matches [mkChange "" "s3" "" false; mkChange "" "s2" "" false;
                                    mkChange "" "s1" "" false] Sample.by_size))
    by (vm_compute; reflexivity).
  split; [exact H1|].
  destruct (sortBy_only_reorders Sample.sized_files Sample.by_size _ H1) as (Hp & Hs & _).
  by split.
Defined.

(** The three candidates where the first failed: target names differ
    between the failed one and the third only, so the batch of the first
    and the third is taken. *)
Lemma handleErrors_exact_witness :
  (NoDup (map Target (matches (set_errors (errors Sample.first_failed)
                                          (set_matches [Sample.c1; Sample.c3] Sample.three))))
   ∧ Forall (λ v, entry v ∈ [Sample.c1; Sample.c3]) (errors Sample.first_failed))
  ∧ (handleErrors (mkState Sample.three_files [])
                  (set_errors (errors Sample.first_failed)
                              (set_matches [Sample.c1; Sample.c3] Sample.three))).1.2
    = set_matches [Sample.c3]
        (set_errors (errors Sample.first_failed)
                    (set_matches [Sample.c1; Sample.c3] Sample.three)).
Proof.
  assert (H1 : NoDup (map Target (matches (set_errors (errors Sample.first_failed)
                        (set_matches [Sample.c1; Sample.c3] Sample.three)))))
    by (apply (bool_decide_unpack _); vm_compute; exact I).
  assert (H2 : Forall (λ v, entry v ∈ matches (set_errors (errors Sample.first_failed)
                        (set_matches [Sample.c1; Sample.c3] Sample.three)))
                      (errors (set_errors (errors Sample.first_failed)
                        (set_matches [Sample.c1; Sample.c3] Sample.three)))).
  { constructor; [|constructor]. apply list_elem_of_here. }
  split; [split; [exact H1|exact H2]|].
  exact (handleErrors_exact_for_distinct_targets (mkState Sample.three_files []) _ H1 H2).
Defined.

(** "a" becomes "c", with the journal in "undo.json"; the validator is
    the one modelled from the spec. *)
Lemma apply_moves_witness :
  (exec Sample.a_to_c = true
   ∧ denied Sample.two_files = []
   ∧ detectConflicts Sample.two_files Sample.a_to_c = (∅, matches Sample.a_to_c)
   ∧ Forall (inPlace Sample.two_files) (matches Sample.a_to_c)
   ∧ writable (outputFile Sample.a_to_c) Sample.two_files)
  ∧ ∃ st' op',
      apply detectConflicts (mkState Sample.two_files []) Sample.a_to_c = (st', op', None)
      ∧ matches op' ≡ₚ [mkChange "" "a" "c" false]
      ∧ files (world st') !! "c" = Some (Raw "A")
      ∧ files (world st') !! "a" = None
      ∧ files (world st') !! "b" = Some (Raw "B").
Proof.
  assert (H3 : detectConflicts Sample.two_files Sample.a_to_c = (∅, matches Sample.a_to_c))
    by (vm_compute; reflexivity).
  assert (H5 : Forall (inPlace Sample.two_files) (matches Sample.a_to_c)).
  { constructor; [|constructor]. split; [|by vm_compute].
    exists (Raw "A"). split; [vm_compute; reflexivity|discriminate]. }
  assert (H6 : writable (outputFile Sample.a_to_c) Sample.two_files).
  { split; [vm_compute; reflexivity|]. split; [vm_compute; discriminate|vm_compute; reflexivity]. }
  split; [by repeat split|].
  destruct (apply_moves_every_candidate detectConflicts (mkState Sample.two_files [])
              Sample.a_to_c eq_refl eq_refl H3)
    as (st' & op' & Hap & Hperm & Hmoved & Hframe & _).
  - apply (bool_decide_unpack _). vm_compute. exact I.
  - exact H5.
  - intros _. split; [|exact H6]. apply (bool_decide_unpack _). vm_compute. exact I.
  - exists st', op'. split; [exact Hap|]. split; [exact Hperm|].
    apply Forall_cons in Hmoved as [[Hc Ha] _].
    split; [exact Hc|]. split; [exact Ha|].
    apply (Hframe "b").
    + apply (bool_decide_unpack _). vm_compute. exact I.
    + apply (bool_decide_unpack _). vm_compute. exact I.
    + intros _. discriminate.
Defined.

(** The round trip at a sample input: "a" becomes "c" with the journal in
    "undo.json", and the undo of that journal puts "a" back; the validator
    is the one modelled from the spec. *)
Lemma apply_then_undo_sample :
  (detectConflicts Sample.two_files Sample.a_to_c = (∅, matches Sample.a_to_c)
   ∧ (let r := apply detectConflicts (mkState Sample.two_files []) Sample.a_to_c in
      detectConflicts (world r.1.1) (set_matches (map swap (matches r.1.2)) Sample.undo_op)
      = (∅, map swap (matches r.1.2)))
   ∧ Forall (λ m, inPlace Sample.two_files m ∧ wellFormed m
                  ∧ strings.Contains (Source m) "/" = false
                  ∧ isFolder (filepath.Dir (originalPath m)) Sample.two_files = true)
            (matches Sample.a_to_c)
   ∧ writable (outputFile Sample.a_to_c) Sample.two_files)
  ∧ ∃ st1 op1 st2 op2,
      apply detectConflicts (mkState Sample.two_files []) Sample.a_to_c = (st1, op1, None)
      ∧ undo detectConflicts st1 Sample.undo_op = Some (st2, op2, None)
      ∧ ∀ p, p ≠ "undo.json" -> files (world st2) !! p = files Sample.two_files !! p.
Proof.
  assert (H1 : detectConflicts Sample.two_files Sample.a_to_c = (∅, matches Sample.a_to_c))
    by (vm_compute; reflexivity).
  assert (H2 : let r := apply detectConflicts (mkState Sample.two_files []) Sample.a_to_c in
               detectConflicts (world r.1.1)
                 (set_matches (map swap (matches r.1.2)) Sample.undo_op)
               = (∅, map swap (matches r.1.2)))
    by (vm_compute; reflexivity).
  assert (H3 : Forall (λ m, inPlace Sample.two_files m ∧ wellFormed m
                            ∧ strings.Contains (Source m) "/" = false
                            ∧ isFolder (filepath.Dir (originalPath m)) Sample.two_files = true)
                      (matches Sample.a_to_c)).
  { constructor; [|constructor]. split; [|by vm_compute]. split; [|by vm_compute].
    exists (Raw "A"). split; [vm_compute; reflexivity|discriminate]. }
  assert (H4 : writable (outputFile Sample.a_to_c) Sample.two_files).
  { split; [vm_compute; reflexivity|]. split; [vm_compute; discriminate|vm_compute; reflexivity]. }
  split; [by repeat split|].
  apply (apply_then_undo_restores detectConflicts Sample.two_files [] Sample.a_to_c
           Sample.undo_op); try reflexivity; try (vm_compute; discriminate);
    try assumption.
  - apply (bool_decide_unpack _). vm_compute. exact I.
  - apply (bool_decide_unpack _). vm_compute. exact I.
Defined.

(** The undo of a journal over the base directories "a/b/c", "a" and
    "a/b". *)
Lemma sortMatches_undo_order_witness :
  undoFile Sample.undo_three ≠ ""
  ∧ matches (sortMatches Sample.undo_three) ≡ₚ matches Sample.undo_three
  ∧ StronglySorted (λ a b, (String.length (BaseDir a) ≤ String.length (BaseDir b))%nat)
                   (matches (sortMatches Sample.undo_three)).
Proof.
  assert (H1 : undoFile Sample.undo_three ≠ "") by (vm_compute; discriminate).
  split; [exact H1|].
  exact (sortMatches_undo_order Sample.undo_three H1).
Defined.

(** Directories in "a", "a/b/c" and "a/b". *)
Lemma sortMatches_directories_order_witness :
  (undoFile Sample.three_dirs = ""
   ∧ Forall (λ m, IsDir m = true) (matches Sample.three_dirs))
  ∧ StronglySorted (λ a b, (String.length (BaseDir b) ≤ String.length (BaseDir a))%nat)
                   (matches (sortMatches Sample.three_dirs)).
Proof.
  assert (H2 : Forall (λ m, IsDir m = true) (matches Sample.three_dirs))
    by (repeat constructor).
  split; [by split|].
  exact (sortMatches_directories_order Sample.three_dirs eq_refl H2).
Defined.

(** ** The matcher and the transformer *)

Section PipelineFacts.
Context {W : Type} `{OS W}.
Variable filepath_Base : string -> string.
Variable filepath_Ext : string -> string.
Variable strings_ToLower : string -> string.
Variable strings_ToUpper : string -> string.
Variable strings_Title : string -> string.
Variable strings_ReplaceAll : string -> string -> string -> string.
Variable regexp_Compile : string -> string + error.
Variable regexp_MatchString : string -> string -> bool.
Variable regexp_FindAllString : string -> string -> list string.
Variable regexp_ReplaceAllString : string -> string -> string -> string.
Variable isHidden : W -> string -> string -> bool + error.
Variable filenameWithoutExtension : string -> string.
Variable handleVariables : W -> Operation -> string -> Change -> string + error.
Variable indexRegex_Match : string -> bool.
Variable replaceIndex : Operation -> string -> nat -> string + error.

Lemma findLoop_found (w : W) (op : Operation) (ps : list Change) : ∀ ms ms' e,
  findLoop filepath_Base strings_ToLower regexp_MatchString isHidden
           filenameWithoutExtension w op ps ms = Some (ms', e) ->
  ∃ found,
    ms' = ms ++ found
    ∧ found `sublist_of` ps
    ∧ Forall (λ v, passesModes op v = true) found.
Proof.
  induction ps as [|v ps IH]; intros ms ms' e Hloop.
  { cbn in Hloop. simplify_eq. exists []. rewrite app_nil_r. repeat split; constructor. }
  cbn [findLoop] in Hloop.
  assert (Hskip : ∀ ms0, findLoop filepath_Base strings_ToLower regexp_MatchString isHidden
                           filenameWithoutExtension w op ps ms0 = Some (ms', e) ->
                         ∃ found, ms' = ms0 ++ found ∧ found `sublist_of` v :: ps
                                  ∧ Forall (λ v, passesModes op v = true) found).
  { intros ms0 Hl. destruct (IH _ _ _ Hl) as (found & -> & Hsub & Hall).
    exists found. split; [done|]. split; [by apply sublist_cons|done]. }
  assert (Htake : passesModes op v = true ->
            findLoop filepath_Base strings_ToLower regexp_MatchString isHidden
                     filenameWithoutExtension w op ps (ms ++ [v]) = Some (ms', e) ->
            ∃ found, ms' = ms ++ found ∧ found `sublist_of` v :: ps
                     ∧ Forall (λ v, passesModes op v = true) found).
  { intros Hv Hl. destruct (IH _ _ _ Hl) as (found & -> & Hsub & Hall).
    exists (v :: found). split; [by rewrite <- app_assoc|].
    split; [by apply sublist_skip|by constructor]. }
  destruct (IsDir v && negb (includeDir op)) eqn:Hd; [by apply Hskip|].
  destruct (onlyDir op && negb (IsDir v)) eqn:Ho; [by apply Hskip|].
  assert (Hv : passesModes op v = true) by (unfold passesModes; by rewrite Hd, Ho).
  destruct (if negb (includeHidden op) then _ else _) as [[|]|err].
  - by apply Hskip.
  - destruct (stringMode op).
    + destruct (strings.Contains _ _); [by apply Htake|by apply Hskip].
    + destruct (searchRegex op) as [re|]; [|done].
      destruct (regexp_MatchString re _); [by apply Htake|by apply Hskip].
  - simplify_eq. exists []. rewrite app_nil_r. repeat split; [apply sublist_nil_l|constructor].
Qed.

(** X19: a [findMatches] that returns, with or without an error, has
    appended to the matches a selection of the paths, in their order; none
    of them is a directory unless directories are included, none is a file
    in only-dir mode, and no other field has changed. *)
Theorem findMatches_selects_paths (w : W) (op op' : Operation) (e : option error) :
  findMatches filepath_Base strings_ToLower regexp_MatchString isHidden
              filenameWithoutExtension w op = Some (op', e) ->
  ∃ found,
    matches op' = matches op ++ found
    ∧ found `sublist_of` paths op
    ∧ Forall (λ v, (IsDir v = true -> includeDir op = true)
                   ∧ (onlyDir op = true -> IsDir v = true)) found
    ∧ set_matches (matches op) op' = op.
Proof.
  unfold findMatches. intros Hf.
  destruct (findLoop _ _ _ _ _ w op (paths op) (matches op)) as [[ms' e']|] eqn:Hloop;
    cbn in Hf; [|done]. simplify_eq.
  destruct (findLoop_found _ _ _ _ _ _ Hloop) as (found & -> & Hsub & Hall).
  exists found. split; [by destruct op|]. split; [done|]. split; [|by destruct op].
  eapply Forall_impl; [exact Hall|]. intros v Hv. unfold passesModes in Hv.
  apply andb_true_iff in Hv as [Hd Ho].
  destruct (IsDir v), (includeDir op), (onlyDir op); cbn in *; done.
Qed.

Lemma Contains_empty s : strings.Contains s "" = true.
Proof. by destruct s. Qed.

Lemma findLoop_empty_find (w : W) (op : Operation) (ps : list Change) : ∀ ms,
  stringMode op = true -> findString op = "" -> ignoreCase op = false ->
  includeHidden op = true ->
  findLoop filepath_Base strings_ToLower regexp_MatchString isHidden
           filenameWithoutExtension w op ps ms
  = Some (ms ++ filter (λ v, passesModes op v = true) ps, None).
Proof.
  intros ms Hs Hf Hc Hh. revert ms. induction ps as [|v ps IH]; intros ms.
  { cbn. by rewrite app_nil_r. }
  cbn [findLoop].
  destruct (IsDir v && negb (includeDir op)) eqn:Hd.
  { rewrite filter_cons_False; [apply IH|]. unfold passesModes. by rewrite Hd. }
  destruct (onlyDir op && negb (IsDir v)) eqn:Ho.
  { rewrite filter_cons_False; [apply IH|]. unfold passesModes. by rewrite Hd, Ho. }
  rewrite filter_cons_True by (unfold passesModes; by rewrite Hd, Ho).
  rewrite Hh, Hs, Hc, Hf. cbn [negb]. rewrite Contains_empty, IH.
  by rewrite <- app_assoc.
Qed.

(** X20: in string mode an empty find string matches every name: with
    case kept and hidden entries included, [findMatches] appends every path
    that passes the directory modes, in order, and returns nil; no regular
    expression is needed. *)
Theorem findMatches_empty_find_string (w : W) (op : Operation) :
  stringMode op = true ->
  findString op = "" ->
  ignoreCase op = false ->
  includeHidden op = true ->
  findMatches filepath_Base strings_ToLower regexp_MatchString isHidden
              filenameWithoutExtension w op
  = Some (set_matches (matches op ++ filter (λ v, passesModes op v = true) (paths op)) op,
          None).
Proof.
  intros Hs Hf Hc Hh. unfold findMatches.
  by rewrite findLoop_empty_find.
Qed.

Lemma fold_replaceCase_unknown replacement (vs : list string) : ∀ str,
  replacement ∉ ["\Cu"; "\Cl"; "\Ct"] ->
  fold_left (replaceCase strings_ToLower strings_ToUpper strings_Title strings_ReplaceAll
                         replacement) vs str = str.
Proof.
  intros str Hn. revert str. induction vs as [|v vs IH]; intros str; [done|].
  cbn [fold_left]. unfold replaceCase at 2.
  rewrite !decide_False; [apply IH| | |]; intros ->; apply Hn;
    repeat (first [apply list_elem_of_here|apply list_elem_of_further]).
Qed.

(** X21: a replacement of three bytes that starts with the case prefix
    and ends in a letter other than u, l and t is not substituted: the
    name comes back as it is, whatever the expression matches. *)
Theorem replaceString_unknown_case_letter (op : Operation) (re fileName : string) :
  String.prefix "\C" (replacement op) = true ->
  String.length (replacement op) = 3%nat ->
  replacement op ∉ ["\Cu"; "\Cl"; "\Ct"] ->
  searchRegex op = Some re ->
  replaceString strings_ToLower strings_ToUpper strings_Title strings_ReplaceAll
                regexp_FindAllString regexp_ReplaceAllString op fileName
  = Some fileName.
Proof.
  intros Hp Hl Hn Hre. unfold replaceString. rewrite Hp, Hl, Hre. cbn.
  by rewrite fold_replaceCase_unknown.
Qed.

Lemma sameEntry_insert (ms : list Change) i v v' :
  ms !! i = Some v -> sameEntry v v' -> Forall2 sameEntry ms (<[i := v']> ms).
Proof.
  revert i. induction ms as [|m ms IH]; intros i Hi Hv; [done|].
  destruct i as [|i]; cbn in *.
  - simplify_eq. constructor; [done|]. apply Forall2_same_length_lookup_2; [done|].
    intros j x y Hx Hy. by simplify_eq.
  - constructor; [done|]. by eapply IH.
Qed.

Lemma sameEntry_trans (l1 l2 l3 : list Change) :
  Forall2 sameEntry l1 l2 -> Forall2 sameEntry l2 l3 -> Forall2 sameEntry l1 l3.
Proof.
  intros H12. revert l3. induction H12 as [|a b l1 l2 Hab _ IH]; intros l3 H23.
  { by apply Forall2_nil_inv_l in H23 as ->. }
  apply Forall2_cons_inv_l in H23 as (c & l3' & Hbc & H23 & ->).
  constructor; [|by apply IH].
  destruct Hab as (? & ? & ?), Hbc as (? & ? & ?). repeat split; congruence.
Qed.

Lemma replaceLoop_targets (w : W) (todo : list Change) : ∀ i op op' e,
  drop i (matches op) = todo ->
  replaceLoop filepath_Base filepath_Ext strings_ToLower strings_ToUpper strings_Title
              strings_ReplaceAll regexp_FindAllString regexp_ReplaceAllString
              filenameWithoutExtension handleVariables indexRegex_Match replaceIndex
              w todo i op = Some (op', e) ->
  Forall2 sameEntry (matches op) (matches op')
  ∧ set_matches (matches op) op' = op.
Proof.
  induction todo as [|v todo IH]; intros i op op' e Hdrop Hloop.
  { cbn in Hloop. simplify_eq. split; [|by destruct op'].
    apply Forall2_same_length_lookup_2; [done|]. intros j x y Hx Hy. by simplify_eq. }
  cbn [replaceLoop] in Hloop.
  destruct (replaceString _ _ _ _ _ _ op _) as [str|]; cbn in Hloop; [|done].
  assert (Hsame : Forall2 sameEntry (matches op) (matches op)).
  { apply Forall2_same_length_lookup_2; [done|]. intros j x y Hx Hy. by simplify_eq. }
  destruct (handleVariables w op str v) as [str1|err].
  2:{ simplify_eq. split; [done|by destruct op']. }
  destruct (if indexRegex_Match str1 then replaceIndex op str1 i else inl str1) as [str2|err].
  2:{ simplify_eq. split; [done|by destruct op']. }
  set (v' := mkChange (BaseDir v) (Source v) _ (IsDir v)) in Hloop.
  assert (Hi : matches op !! i = Some v).
  { rewrite <- (Nat.add_0_r i), <- lookup_drop, Hdrop. done. }
  apply IH in Hloop as [Hall Hfields].
  - split.
    + eapply sameEntry_trans; [|exact Hall].
      replace (matches (set_matches (<[i:=v']> (matches op)) op))
        with (<[i:=v']> (matches op)) by (by destruct op).
      by eapply sameEntry_insert.
    + destruct op, op'. cbn in *. by simplify_eq.
  - replace (matches (set_matches (<[i:=v']> (matches op)) op))
      with (<[i:=v']> (matches op)) by (by destruct op).
    rewrite drop_insert_lt by lia.
    rewrite (drop_S _ v i Hi) in Hdrop. by simplify_eq.
Qed.

(** X22: a [replace] that returns, with or without an error, has written
    targets only: the matches are as many as before, each with the base
    directory, the source and the kind it had, and no other field of the
    operation has changed. *)
Theorem replace_writes_targets_only (w : W) (op op' : Operation) (e : option error) :
  replace filepath_Base filepath_Ext strings_ToLower strings_ToUpper strings_Title
          strings_ReplaceAll regexp_FindAllString regexp_ReplaceAllString
          filenameWithoutExtension handleVariables indexRegex_Match replaceIndex
          w op = Some (op', e) ->
  Forall2 sameEntry (matches op) (matches op')
  ∧ set_matches (matches op) op' = op.
Proof.
  unfold replace. intros Hr. by eapply (replaceLoop_targets w (matches op) 0).
Qed.

End PipelineFacts.

Section OptionsFacts.
Context {W : Type} `{OS W}.
Variable filepath_Base : string -> string.
Variable strings_ToLower : string -> string.
Variable regexp_Compile : string -> string + error.
Variable regexp_MatchString : string -> string -> bool.
Variable isHidden : W -> string -> string -> bool + error.
Variable filenameWithoutExtension : string -> string.

(** X23: the only-dir flag alone is enough for directories to be
    considered: [setOptions] turns the inclusion of directories on, and
    with an empty find string in string mode, case kept and hidden entries
    included, [findMatches] on the operation it returns appends exactly the
    directories among the paths, in order. *)
Theorem only_dir_flag_matches_directories (w : W) (op : Operation) (c : cli.Context) :
  cli.only_dir c = true ->
  cli.string_mode c = true ->
  cli.find c = "" ->
  cli.ignore_case c = false ->
  cli.hidden c = true ->
  findMatches filepath_Base strings_ToLower regexp_MatchString isHidden
              filenameWithoutExtension w (setOptions regexp_Compile op c).1
  = Some (set_matches (matches op ++ filter (λ v, IsDir v = true) (paths op))
                      (setOptions regexp_Compile op c).1, None).
Proof.
  intros Hod Hsm Hf Hic Hh.
  set (op1 := (setOptions regexp_Compile op c).1).
  assert (Hfields : stringMode op1 = true ∧ findString op1 = "" ∧ ignoreCase op1 = false
                    ∧ includeHidden op1 = true ∧ onlyDir op1 = true ∧ includeDir op1 = true
                    ∧ paths op1 = paths op ∧ matches op1 = matches op).
  { subst op1. unfold setOptions. rewrite Hod.
    destruct (regexp_Compile _); cbn; by rewrite ?Hsm, ?Hf, ?Hic, ?Hh. }
  destruct Hfields as (H1 & H2 & H3 & H4 & H5 & H6 & H7 & H8).
  unfold findMatches. rewrite findLoop_empty_find by done.
  rewrite H7, H8. cbn [mbind option_bind fst snd]. do 4 f_equal. apply list_filter_iff. intros v.
  unfold passesModes. rewrite H5, H6. by destruct (IsDir v).
Qed.

End OptionsFacts.

Section FilterFacts.
Variable regexp_Compile : string -> string + error.
Variable regexp_MatchString : string -> string -> bool.

Lemma filter_loop (regex : string) (ms : list Change) : ∀ filtered,
  fold_left (fun filtered m =>
               if negb (regexp_MatchString regex (Source m)) then filtered ++ [m]
               else filtered) ms filtered
  = filtered ++ filter (λ m, regexp_MatchString regex (Source m) = false) ms.
Proof.
  induction ms as [|m ms IH]; intros filtered; [by rewrite app_nil_r|].
  cbn [fold_left]. rewrite IH. destruct (regexp_MatchString regex (Source m)) eqn:Hm.
  - by rewrite filter_cons_False by (by rewrite Hm).
  - rewrite filter_cons_True by done. cbn [negb]. by rewrite <- app_assoc.
Qed.

(** X24: [filterMatches] joins the exclude patterns with a bar.  When the
    joined pattern compiles, the matches become exactly those whose source
    the expression does not match, in their order, and nil is returned;
    when it does not compile, the error is returned and the operation is
    left as it was. *)
Theorem filterMatches_keeps_unmatched_in_order (op : Operation) :
  match regexp_Compile (String.concat "|" (excludeFilter op)) with
  | inl regex =>
    filterMatches regexp_Compile regexp_MatchString op
    = (set_matches (filter (λ m, regexp_MatchString regex (Source m) = false) (matches op)) op,
       None)
  | inr e => filterMatches regexp_Compile regexp_MatchString op = (op, Some e)
  end.
Proof.
  unfold filterMatches. destruct (regexp_Compile _) as [regex|e]; [|done].
  by rewrite filter_loop.
Qed.

End FilterFacts.

(** ** The matcher, the transformer and the options on a listing *)

(** Of two files and a directory, the file whose name contains the find
    string is selected. *)
Lemma findMatches_selects_witness :
  findMatches Sample.base Sample.lower Sample.matchString Sample.notHidden Sample.base
              Sample.two_files Sample.find_txt = Some (Sample.found_txt, None)
  ∧ ∃ found, matches Sample.found_txt = matches Sample.find_txt ++ found
      ∧ found `sublist_of` paths Sample.find_txt
      ∧ Forall (λ v, (IsDir v = true -> includeDir Sample.find_txt = true)
                     ∧ (onlyDir Sample.find_txt = true -> IsDir v = true)) found
      ∧ set_matches (matches Sample.find_txt) Sample.found_txt = Sample.find_txt.
Proof.
  assert (H1 : findMatches Sample.base Sample.lower Sample.matchString Sample.notHidden
                 Sample.base Sample.two_files Sample.find_txt
               = Some (Sample.found_txt, None)) by (vm_compute; reflexivity).
  split; [exact H1|].
  exact (findMatches_selects_paths Sample.base Sample.lower Sample.matchString
           Sample.notHidden Sample.base Sample.two_files Sample.find_txt Sample.found_txt
           None H1).
Defined.

(** With an empty find string the two files are selected and the directory
    is left out. *)
Lemma findMatches_empty_find_witness :
  (stringMode Sample.find_all = true ∧ findString Sample.find_all = ""
   ∧ ignoreCase Sample.find_all = false ∧ includeHidden Sample.find_all = true)
  ∧ findMatches Sample.base Sample.lower Sample.matchString Sample.notHidden Sample.base
                Sample.two_files Sample.find_all
    = Some (set_matches (matches Sample.find_all
                         ++ filter (λ v, passesModes Sample.find_all v = true)
                                   (paths Sample.find_all)) Sample.find_all, None).
Proof.
  split; [by repeat split|].
  exact (findMatches_empty_find_string Sample.base Sample.lower Sample.matchString
           Sample.notHidden Sample.base Sample.two_files Sample.find_all
           eq_refl eq_refl eq_refl eq_refl).
Defined.

(** The case letter x names no case. *)
Lemma replaceString_unknown_case_witness :
  (String.prefix "\C" (replacement Sample.case_x) = true
   ∧ String.length (replacement Sample.case_x) = 3%nat
   ∧ (replacement Sample.case_x ∉ ["\Cu"; "\Cl"; "\Ct"])
   ∧ searchRegex Sample.case_x = Some "a")
  ∧ replaceString Sample.lower Sample.lower Sample.lower Sample.replaceAll Sample.findAll
                  Sample.replaceAllRe Sample.case_x "a.txt" = Some "a.txt".
Proof.
  assert (H3 : replacement Sample.case_x ∉ ["\Cu"; "\Cl"; "\Ct"]).
  { apply (bool_decide_unpack _). vm_compute. exact I. }
  split; [by repeat split|].
  exact (replaceString_unknown_case_letter Sample.lower Sample.lower Sample.lower
           Sample.replaceAll Sample.findAll Sample.replaceAllRe Sample.case_x "a" "a.txt"
           eq_refl eq_refl H3 eq_refl).
Defined.

(** The selected file gets its target; its source stays. *)
Lemma replace_writes_targets_witness :
  replace Sample.base Sample.ext Sample.lower Sample.lower Sample.lower Sample.replaceAll
          Sample.findAll Sample.replaceAllRe Sample.base Sample.noVariables Sample.noIndex
          Sample.keepIndex Sample.two_files Sample.found_txt
  = Some (set_matches [mkChange "" "a.txt" "md" false] Sample.found_txt, None)
  ∧ Forall2 sameEntry (matches Sample.found_txt)
            (matches (set_matches [mkChange "" "a.txt" "md" false] Sample.found_txt))
  ∧ set_matches (matches Sample.found_txt)
                (set_matches [mkChange "" "a.txt" "md" false] Sample.found_txt)
    = Sample.found_txt.
Proof.
  assert (H1 : replace Sample.base Sample.ext Sample.lower Sample.lower Sample.lower
                 Sample.replaceAll Sample.findAll Sample.replaceAllRe Sample.base
                 Sample.noVariables Sample.noIndex Sample.keepIndex Sample.two_files
                 Sample.found_txt
               = Some (set_matches [mkChange "" "a.txt" "md" false] Sample.found_txt, None))
    by (vm_compute; reflexivity).
  split; [exact H1|].
  exact (replace_writes_targets_only Sample.base Sample.ext Sample.lower Sample.lower
           Sample.lower Sample.replaceAll Sample.findAll Sample.replaceAllRe Sample.base
           Sample.noVariables Sample.noIndex Sample.keepIndex Sample.two_files
           Sample.found_txt _ None H1).
Defined.

(** The directory of the listing is the one entry selected. *)
Lemma only_dir_flag_witness :
  (cli.only_dir Sample.only_dirs = true ∧ cli.string_mode Sample.only_dirs = true
   ∧ cli.find Sample.only_dirs = "" ∧ cli.ignore_case Sample.only_dirs = false
   ∧ cli.hidden Sample.only_dirs = true)
  ∧ findMatches Sample.base Sample.lower Sample.matchString Sample.notHidden Sample.base
                Sample.two_files (setOptions Sample.compileAny Sample.listed Sample.only_dirs).1
    = Some (set_matches (matches Sample.listed
                         ++ filter (λ v, IsDir v = true) (paths Sample.listed))
                        (setOptions Sample.compileAny Sample.listed Sample.only_dirs).1,
            None).
Proof.
  split; [by repeat split|].
  exact (only_dir_flag_matches_directories Sample.base Sample.lower Sample.compileAny
           Sample.matchString Sample.notHidden Sample.base Sample.two_files Sample.listed
           Sample.only_dirs eq_refl eq_refl eq_refl eq_refl eq_refl).
Defined.
